(** * dev_runner.py: build / restart / watch loop

    A shallow embedding of [dev_runner.py] and the properties of its
    change-detection-and-restart loop.

    The script is sequential code over three pieces of mutable state (the
    module global [current_process], the local [last_mtime] of [main], and the
    outside world).  It is embedded in a state-and-exception monad over a
    [world]; every call that leaves the interpreter (printing, sleeping,
    running a subprocess, signalling the child, looking at the file system) is
    one entry of the world's [log].  The position in the log is the clock: what
    the outside world answers at a given moment is read from an [environment]
    indexed by that position. *)

From Stdlib Require Import ZArith List String Ascii Bool Arith Lia.
From Stdlib Require Import Permutation.
Import ListNotations.

Local Open Scope Z_scope.
Local Open Scope list_scope.

(** ** Configuration (lines 7-11) *)

Definition PROJECT_SCHEME : string := "PowerUserMail".
Definition APP_PATH : string :=
  "build/Build/Products/Debug/PowerUserMail.app/Contents/MacOS/PowerUserMail".
Definition SOURCE_DIR : string := "PowerUserMail".

(** ** Python values used by the script *)

(** [str.endswith]. *)
Definition endswith (s suffix : string) : bool :=
  let n := String.length s in
  let k := String.length suffix in
  (k <=? n)%nat && String.eqb (substring (n - k) k s) suffix.

(** Truth value of a [str]: the empty string is false. *)
Definition truthy (s : string) : bool :=
  match s with EmptyString => false | String _ _ => true end.

(** [os.path.join] of two components (posixpath). *)
Definition os_path_join (a b : string) : string :=
  if String.prefix "/" b then b
  else if negb (truthy a) || endswith a "/" then (a ++ b)%string
  else (a ++ "/" ++ b)%string.

(** Exceptions that occur in the script.  [OSError] stands for whatever
    [os.path.getmtime] raises on a file it cannot stat. *)
Inductive exn : Type :=
| KeyboardInterrupt
| TimeoutExpired
| OSError
| SystemExit (code : Z).

Definition is_KeyboardInterrupt (e : exn) : bool :=
  match e with KeyboardInterrupt => true | _ => false end.

Definition is_TimeoutExpired (e : exn) : bool :=
  match e with TimeoutExpired => true | _ => false end.

Inductive result (A : Type) : Type :=
| Ret (a : A)
| Raise (e : exn).
Arguments Ret {A} a.
Arguments Raise {A} e.

(** [subprocess.CompletedProcess], with [capture_output=True, text=True]. *)
Record CompletedProcess : Type := {
  returncode : Z;
  stdout : string;
  stderr : string
}.

(** What one scan sees of the file system: the triples [os.walk] yields for a
    top directory (for a missing or unreadable top it yields nothing, for an
    unreadable subdirectory it yields no triple: [onerror] is left at [None]),
    and the outcome of [os.path.getmtime] on a path.  Modification times are
    floats in Python; the script only compares them, so they are carried as
    integers (think [st_mtime_ns]), negative before the epoch. *)
Record snapshot : Type := {
  os_walk : string -> list (string * list string * list string);
  os_path_getmtime : string -> result Z
}.

(** A [subprocess.Popen] object, identified by the moment of its creation.
    The object is truthy; [current_process] is falsy only as [None]. *)
Definition handle : Type := nat.

(** ** The outside world *)

(** Console output, by source line. *)
Inductive message : Type :=
| Watching            (* line 80 *)
| Building            (* line 16 *)
| BuildFailed         (* line 30 *)
| Text (s : string)   (* lines 32, 34 *)
| BuildSucceeded      (* line 36 *)
| StoppingPrevious    (* line 42 *)
| ForceKilling        (* line 48 *)
| RunningApp          (* line 56 *)
| Rule                (* line 57 *)
| BinaryNotFound      (* line 63 *)
| ChangeDetected      (* line 92 *)
| Exiting.            (* line 100 *)

(** Calls that leave the interpreter.  The timeout of [Wait] is in seconds,
    the duration of [Sleep] in milliseconds ([time.sleep(0.5)] is
    [Sleep 500]). *)
Inductive call : Type :=
| Print (m : message)
| SubprocessRun (argv : list string)   (* subprocess.run(argv, capture_output=True) *)
| Terminate (p : handle)               (* p.terminate() *)
| Wait (p : handle) (timeout : nat)    (* p.wait(timeout=...) *)
| Kill (p : handle)                    (* p.kill() *)
| Sleep (ms : nat)                     (* time.sleep(...) *)
| PathExists (path : string)           (* os.path.exists(path) *)
| Popen (argv : list string)           (* subprocess.Popen(argv) *)
| OsWalk (top : string).               (* os.walk(top), with the stats of a scan *)

Inductive event : Type :=
| Done (c : call)
| Raised (c : call) (e : exn).

Definition call_of (e : event) : call :=
  match e with Done c => c | Raised c _ => c end.

Record world : Type := {
  current_process : option handle;   (* the module global, line 13 *)
  last_mtime : Z;                    (* the local of [main], line 81 *)
  log : list event
}.

Definition tick (w : world) : nat := List.length (log w).

Definition record (e : event) (w : world) : world :=
  {| current_process := current_process w;
     last_mtime := last_mtime w;
     log := log w ++ [e] |}.

(** The answers of the outside world, by moment. *)
Record environment : Type := {
  (* the operator's interrupt arrives during the call made at this moment *)
  sigint : nat -> bool;
  (* what a [subprocess.run] made at this moment returns *)
  completed : nat -> CompletedProcess;
  (* whether the child exits within the timeout of a [wait] made now *)
  exits_in_time : nat -> bool;
  path_exists : nat -> string -> bool;
  source_tree : nat -> snapshot
}.

(** ** The monad *)

Definition M (A : Type) : Type := world -> result A * world.

Definition ret {A} (a : A) : M A := fun w => (Ret a, w).

Definition raise {A} (e : exn) : M A := fun w => (Raise e, w).

Definition bind {A B} (m : M A) (k : A -> M B) : M B :=
  fun w =>
    match m w with
    | (Ret a, w') => k a w'
    | (Raise e, w') => (Raise e, w')
    end.

(** [try: body / except <catches>: handler]. *)
Definition try_except {A} (body : M A) (catches : exn -> bool) (handler : M A)
  : M A :=
  fun w =>
    match body w with
    | (Ret a, w') => (Ret a, w')
    | (Raise e, w') => if catches e then handler w' else (Raise e, w')
    end.

Declare Scope py_scope.
Delimit Scope py_scope with py.
Notation "x <- m ;; k" := (bind m (fun x => k))
  (at level 61, m at next level, right associativity) : py_scope.
Notation "m ;; k" := (bind m (fun _ => k))
  (at level 61, right associativity) : py_scope.
Local Open Scope py_scope.

Definition get_current_process : M (option handle) :=
  fun w => (Ret (current_process w), w).

Definition set_current_process (p : option handle) : M unit :=
  fun w => (Ret tt, {| current_process := p;
                       last_mtime := last_mtime w;
                       log := log w |}).

Definition get_last_mtime : M Z := fun w => (Ret (last_mtime w), w).

Definition set_last_mtime (m : Z) : M unit :=
  fun w => (Ret tt, {| current_process := current_process w;
                       last_mtime := m;
                       log := log w |}).

(** ** get_max_mtime, on one snapshot (lines 66-77) *)

Definition watched (f : string) : bool :=
  endswith f ".swift" || endswith f ".entitlements" || endswith f ".plist".

(** Lines 69-76: the body of the inner loop. *)
Definition visit (s : snapshot) (root : string) (max_mtime : Z) (f : string)
  : Z :=
  if watched f then
    let path := os_path_join root f in
    match os_path_getmtime s path with
    | Ret mtime => if mtime >? max_mtime then mtime else max_mtime
    | Raise _ => max_mtime                              (* except: pass *)
    end
  else max_mtime.

Definition visit_dir (s : snapshot) (max_mtime : Z)
  (triple : string * list string * list string) : Z :=
  let '(root, _, files) := triple in
  fold_left (visit s root) files max_mtime.

Definition get_max_mtime_of (s : snapshot) : Z :=
  fold_left (visit_dir s) (os_walk s SOURCE_DIR) 0.

Section Program.

Variable E : environment.

(** One call to the outside: an interrupt arriving during it raises
    [KeyboardInterrupt], otherwise the world answers. *)
Definition perform {A} (c : call) (answer : nat -> result A) : M A :=
  fun w =>
    if sigint E (tick w) then
      (Raise KeyboardInterrupt, record (Raised c KeyboardInterrupt) w)
    else
      match answer (tick w) with
      | Ret a => (Ret a, record (Done c) w)
      | Raise e => (Raise e, record (Raised c e) w)
      end.

Definition print (m : message) : M unit :=
  perform (Print m) (fun _ => Ret tt).

Definition subprocess_run (argv : list string) : M CompletedProcess :=
  perform (SubprocessRun argv) (fun t => Ret (completed E t)).

Definition terminate (p : handle) : M unit :=
  perform (Terminate p) (fun _ => Ret tt).

Definition wait (p : handle) (timeout : nat) : M unit :=
  perform (Wait p timeout)
    (fun t => if exits_in_time E t then Ret tt else Raise TimeoutExpired).

Definition kill (p : handle) : M unit :=
  perform (Kill p) (fun _ => Ret tt).

Definition sleep (ms : nat) : M unit :=
  perform (Sleep ms) (fun _ => Ret tt).

Definition os_path_exists (path : string) : M bool :=
  perform (PathExists path) (fun t => Ret (path_exists E t path)).

Definition subprocess_Popen (argv : list string) : M handle :=
  perform (Popen argv) (fun t => Ret t).

Definition sys_exit {A} (code : Z) : M A := raise (SystemExit code).

(** ** build (lines 15-37) *)

Definition xcodebuild : list string :=
  [ "xcodebuild";
    "-project"; "PowerUserMail.xcodeproj";
    "-scheme"; PROJECT_SCHEME;
    "-configuration"; "Debug";
    "-destination"; "generic/platform=macOS";
    "-derivedDataPath"; "build" ]%string.

Definition build : M bool :=
  print Building ;;
  result <- subprocess_run xcodebuild ;;
  if negb (returncode result =? 0) then
    print BuildFailed ;;
    (if truthy (stderr result) then print (Text (stderr result)) else ret tt) ;;
    (if truthy (stdout result) then print (Text (stdout result)) else ret tt) ;;
    ret false
  else
    print BuildSucceeded ;;
    ret true.

(** ** run_app (lines 39-63) *)

Definition killall : list string := [ "killall"; "-9"; "PowerUserMail" ]%string.

Definition run_app : M unit :=
  cp <- get_current_process ;;
  match cp with
  | Some p =>
      print StoppingPrevious ;;
      terminate p ;;
      try_except (wait p 1) is_TimeoutExpired
        (print ForceKilling ;;
         kill p)
  | None => ret tt
  end ;;
  subprocess_run killall ;;
  sleep 500 ;;
  print RunningApp ;;
  print Rule ;;
  found <- os_path_exists APP_PATH ;;
  if found then
    p <- subprocess_Popen [APP_PATH] ;;
    set_current_process (Some p)
  else
    print BinaryNotFound.

(** ** get_max_mtime (lines 65-77)

    The scan is one look at the file system.  An interrupt that arrives while
    [os.walk] is listing propagates; one that arrives inside
    [os.path.getmtime] is, like every other exception there, the [Raise]
    outcome of that call in the snapshot, and falls into the bare [except]. *)

Definition get_max_mtime : M Z :=
  perform (OsWalk SOURCE_DIR) (fun t => Ret (get_max_mtime_of (source_tree E t))).

(** ** main (lines 79-103) *)

(** Lines 89-98: one pass through the body of [while True]. *)
Definition watch_iteration : M unit :=
  sleep 1000 ;;
  current_mtime <- get_max_mtime ;;
  last <- get_last_mtime ;;
  if current_mtime >? last then
    print ChangeDetected ;;
    set_last_mtime current_mtime ;;
    sleep 500 ;;
    ok <- build ;;
    if ok then run_app else ret tt
  else ret tt.

(** Line 88.  The loop has no exit of its own; [watch_loop n] is its first
    [n] passes, and [Ret tt] says that the loop is still polling after them. *)
Fixpoint watch_loop (n : nat) : M unit :=
  match n with
  | O => ret tt
  | S k => watch_iteration ;; watch_loop k
  end.

(** Lines 99-103. *)
Definition on_interrupt : M unit :=
  print Exiting ;;
  cp <- get_current_process ;;
  match cp with
  | Some p => terminate p
  | None => ret tt
  end ;;
  sys_exit 0.

(** Lines 87-103. *)
Definition watching (n : nat) : M unit :=
  try_except (watch_loop n) is_KeyboardInterrupt on_interrupt.

(** Lines 80-85. *)
Definition startup : M unit :=
  print Watching ;;
  m <- get_max_mtime ;;
  set_last_mtime m ;;
  ok <- build ;;
  if ok then run_app else ret tt.

Definition main (n : nat) : M unit :=
  startup ;;
  watching n.

(** *** Stretches of [run_app] and [main], named for the statements below *)

(** Lines 42-49: the branch of [run_app] taken when [p] is held. *)
Definition stop_previous (p : handle) : M unit :=
  print StoppingPrevious ;;
  terminate p ;;
  try_except (wait p 1) is_TimeoutExpired
    (print ForceKilling ;;
     kill p).

(** Lines 53-63: [run_app] from the sweep on. *)
Definition launch : M unit :=
  subprocess_run killall ;;
  sleep 500 ;;
  print RunningApp ;;
  print Rule ;;
  found <- os_path_exists APP_PATH ;;
  if found then
    p <- subprocess_Popen [APP_PATH] ;;
    set_current_process (Some p)
  else
    print BinaryNotFound.

(** Lines 84-85 and, word for word, lines 97-98. *)
Definition rebuild : M unit :=
  ok <- build ;;
  if ok then run_app else ret tt.

(** Lines 80-81: [startup] up to its build. *)
Definition baseline : M unit :=
  print Watching ;;
  m <- get_max_mtime ;;
  set_last_mtime m.

(** Lines 89-96: a pass of the loop up to its build; [true] when the pass
    goes on to build. *)
Definition poll : M bool :=
  sleep 1000 ;;
  current_mtime <- get_max_mtime ;;
  last <- get_last_mtime ;;
  if current_mtime >? last then
    print ChangeDetected ;;
    set_last_mtime current_mtime ;;
    sleep 500 ;;
    ret true
  else ret false.

End Program.

(** The state in which the interpreter enters [main]: no process tracked,
    nothing logged.  [last_mtime] is not bound yet; line 81 overwrites it. *)
Definition boot : world :=
  {| current_process := None; last_mtime := 0; log := [] |}.

(** ** Vocabulary of the statements *)

(** No interrupt arrives during the [n] calls made from moment [t] on. *)
Definition calm (E : environment) (t n : nat) : Prop :=
  forall t', (t <= t' < t + n)%nat -> sigint E t' = false.

(** The binary is missing whenever it is looked for during those calls. *)
Definition missing (E : environment) (t n : nat) : Prop :=
  forall t', (t <= t' < t + n)%nat -> path_exists E t' APP_PATH = false.

(** What [run_app] does from the orphan sweep on, when it starts the sweep at
    moment [t] and is not interrupted. *)
Definition launch_log (E : environment) (t : nat) : list event :=
  [ Done (SubprocessRun killall); Done (Sleep 500); Done (Print RunningApp);
    Done (Print Rule); Done (PathExists APP_PATH) ] ++
  (if path_exists E (4 + t) APP_PATH
   then [ Done (Popen [APP_PATH]) ]
   else [ Done (Print BinaryNotFound) ]).

(** What [run_app] does before the sweep when it holds [p] at moment [t]. *)
Definition stop_log (E : environment) (p : handle) (t : nat) : list event :=
  [ Done (Print StoppingPrevious); Done (Terminate p) ] ++
  (if exits_in_time E (2 + t)
   then [ Done (Wait p 1) ]
   else [ Raised (Wait p 1) TimeoutExpired; Done (Print ForceKilling);
          Done (Kill p) ]).

Definition stop_log_of (E : environment) (cp : option handle) (t : nat)
  : list event :=
  match cp with
  | Some p => stop_log E p t
  | None => []
  end.

(** Calls that act on the application: signals to the child, the sweep by
    name, waiting for the child and launching a new one. *)
Definition is_killall (argv : list string) : bool :=
  match argv with
  | a :: _ => String.eqb a "killall"
  | [] => false
  end.


Definition is_xcodebuild (e : event) : bool :=
  match call_of e with
  | SubprocessRun argv =>
      match argv with a :: _ => String.eqb a "xcodebuild" | [] => false end
  | _ => false
  end.


Definition any_call (c : call) : Prop := True.

(** Every run of [m], however it ends, takes the world along [R]. *)
Definition respects {A} (R : world -> world -> Prop) (m : M A) : Prop :=
  forall w r w', m w = (r, w') -> R w w'.

(** The interrupt arrives at moment [t].  A run of [m] that starts between
    [t0] and [t] either is over by [t], or is the one the interrupt hits: it
    raises [KeyboardInterrupt] out of the call made at [t].  [ok] lists the
    other exceptions [m] may end with. *)
Definition lands {A} (t0 t : nat) (ok : exn -> bool) (m : M A) : Prop :=
  forall w r w',
    (t0 <= tick w <= t)%nat -> m w = (r, w') ->
    match r with
    | Ret _ => (tick w <= tick w' <= t)%nat
    | Raise KeyboardInterrupt => tick w' = S t
    | Raise e => ok e = true /\ (tick w <= tick w' <= t)%nat
    end.

Definition no_other (e : exn) : bool := false.


(** From [w] to [w'] the watch baseline is the same. *)
Definition baseline_kept (w w' : world) : Prop :=
  last_mtime w' = last_mtime w.

(** The scan as the specification words it: the timestamps of exactly the
    watched files that can be read, their maximum, and epoch zero when there
    is none. *)
Definition readable_mtime (s : snapshot) (root f : string) : list Z :=
  if watched f then
    match os_path_getmtime s (os_path_join root f) with
    | Ret m => [m]
    | Raise _ => []
    end
  else [].

Definition watched_mtimes (s : snapshot) : list Z :=
  flat_map (fun '(root, _, files) => flat_map (readable_mtime s root) files)
           (os_walk s SOURCE_DIR).

Definition spec_scan (s : snapshot) : Z :=
  match watched_mtimes s with
  | [] => 0
  | m :: ms => fold_left Z.max ms m
  end.

(** Two snapshots list the same files and agree on every watched one. *)
Definition same_watched (s s' : snapshot) : Prop :=
  os_walk s' SOURCE_DIR = os_walk s SOURCE_DIR /\
  forall root dirs files f,
    In (root, dirs, files) (os_walk s SOURCE_DIR) -> In f files ->
    watched f = true ->
    os_path_getmtime s' (os_path_join root f) =
    os_path_getmtime s (os_path_join root f).

(** What [build] does when it starts at moment [t] and is not interrupted. *)
Definition build_log (E : environment) (t : nat) : list event :=
  let result := completed E (1 + t) in
  [ Done (Print Building); Done (SubprocessRun xcodebuild) ] ++
  (if returncode result =? 0 then [ Done (Print BuildSucceeded) ]
   else
     Done (Print BuildFailed) ::
     (if truthy (stderr result)
      then [ Done (Print (Text (stderr result))) ] else []) ++
     (if truthy (stdout result)
      then [ Done (Print (Text (stdout result))) ] else [])).


(** What a pass of the loop does when it sees none. *)
Definition idle_log : list event :=
  [ Done (Sleep 1000); Done (OsWalk SOURCE_DIR) ].






(** A stretch of log in which every [Popen] that returns comes after a sweep
    by name and a settle sleep that returned, and every [kill] after a [wait]
    on the same process that timed out. *)
Fixpoint guarded (swept settled : bool) (timed_out : option handle)
  (l : list event) : bool :=
  match l with
  | [] => true
  | e :: l' =>
      match e with
      | Done (Popen _) => swept && settled && guarded swept settled timed_out l'
      | Done (Kill p) =>
          match timed_out with
          | Some q => Nat.eqb p q
          | None => false
          end && guarded swept settled timed_out l'
      | Done (SubprocessRun argv) =>
          guarded (swept || is_killall argv) settled timed_out l'
      | Done (Sleep _) => guarded swept swept timed_out l'
      | Raised (Wait p _) TimeoutExpired => guarded swept settled (Some p) l'
      | _ => guarded swept settled timed_out l'
      end
  end.

Definition count_subprocess_runs (l : list event) : nat :=
  List.length
    (filter (fun e => match call_of e with SubprocessRun _ => true | _ => false end)
            l).

Definition build_call (c : call) : bool :=
  match c with
  | Print _ => true
  | SubprocessRun argv =>
      match argv with a :: _ => String.eqb a "xcodebuild" | [] => false end
  | _ => false
  end.

(** Two triples of [os.walk] for the same directory, its files listed in
    another order. *)
Definition same_dir (d d' : string * list string * list string) : Prop :=
  fst (fst d) = fst (fst d') /\ Permutation (snd d) (snd d').

(** ** Scenarios

    Concrete worlds on which the statements are exercised. *)

Module Scenario.

Definition clean_build : CompletedProcess :=
  {| returncode := 0; stdout := "** BUILD SUCCEEDED **"; stderr := "" |}.

Definition broken_build : CompletedProcess :=
  {| returncode := 65;
     stdout := "** BUILD FAILED **";
     stderr := "error: cannot find 'inbox' in scope" |}.

(** A source tree with two watched files, of which [Info.plist] cannot be
    read, and one that is not watched. *)
Definition tree (app_swift readme : Z) : snapshot :=
  {| os_walk := fun top =>
       [ (top, ["Views"%string],
          ["PowerUserMailApp.swift"; "README.md"]%string);
         (os_path_join top "Views", [], ["Info.plist"%string]) ];
     os_path_getmtime := fun path =>
       if String.eqb path "PowerUserMail/PowerUserMailApp.swift"
       then Ret app_swift
       else if String.eqb path "PowerUserMail/README.md" then Ret readme
       else Raise OSError |}.

(** [SOURCE_DIR] is missing or cannot be listed. *)
Definition no_tree : snapshot :=
  {| os_walk := fun _ => []; os_path_getmtime := fun _ => Raise OSError |}.

(** A single watched file last modified one second before the epoch. *)
Definition old_tree : snapshot :=
  {| os_walk := fun top => [ (top, [], ["Legacy.swift"%string]) ];
     os_path_getmtime := fun _ => Ret (-1) |}.

(** Nothing goes wrong and nothing changes. *)
Definition steady : environment :=
  {| sigint := fun _ => false;
     completed := fun _ => clean_build;
     exits_in_time := fun _ => true;
     path_exists := fun _ _ => true;
     source_tree := fun _ => tree 100 50 |}.

(** The child ignores the request to terminate. *)
Definition stubborn : environment :=
  {| sigint := fun _ => false;
     completed := fun _ => clean_build;
     exits_in_time := fun _ => false;
     path_exists := fun _ _ => true;
     source_tree := fun _ => tree 100 50 |}.

(** [PowerUserMailApp.swift] is saved after the first launch, and the build
    products are removed behind the back of the second build. *)
Definition cleaned : environment :=
  {| sigint := fun _ => false;
     completed := fun _ => clean_build;
     exits_in_time := fun _ => true;
     path_exists := fun t _ => (t <? 12)%nat;
     source_tree := fun t => tree (if (t <? 12)%nat then 100 else 200) 50 |}.

(** Every build fails. *)
Definition broken : environment :=
  {| sigint := fun _ => false;
     completed := fun _ => broken_build;
     exits_in_time := fun _ => true;
     path_exists := fun _ _ => true;
     source_tree := fun t => tree (if (t <? 5)%nat then 100 else 200) 50 |}.

(** [PowerUserMailApp.swift] is saved once, after the first launch. *)
Definition edited : environment :=
  {| sigint := fun _ => false;
     completed := fun _ => clean_build;
     exits_in_time := fun _ => true;
     path_exists := fun _ _ => true;
     source_tree := fun t => tree (if (t <? 12)%nat then 100 else 200) 50 |}.

(** The sources are deleted after the first launch. *)
Definition deleted : environment :=
  {| sigint := fun _ => false;
     completed := fun _ => clean_build;
     exits_in_time := fun _ => true;
     path_exists := fun _ _ => true;
     source_tree := fun t => if (t <? 12)%nat then tree 100 50 else no_tree |}.

(** The operator presses Ctrl-C at moment [t]. *)
Definition interrupted (t : nat) : environment :=
  {| sigint := Nat.eqb t;
     completed := fun _ => clean_build;
     exits_in_time := fun _ => true;
     path_exists := fun _ _ => true;
     source_tree := fun _ => tree 100 50 |}.

(** The world after start-up: the application runs under handle [10]. *)
Definition launched : world :=
  Eval vm_compute in snd (startup steady boot).

(** The world in which the second build of [cleaned] has just succeeded. *)
Definition rebuilt : world :=
  Eval vm_compute in
    snd ((startup cleaned ;; poll cleaned ;; build cleaned) boot).

(** The worlds of [edited] after the scan that sees the edit, after the
    message about it, after that pass, and after the scan of the next one. *)
Definition edit_seen : world :=
  Eval vm_compute in snd ((sleep edited 1000 ;; get_max_mtime edited) launched).

Definition edit_announced : world :=
  Eval vm_compute in snd (print edited ChangeDetected edit_seen).

Definition relaunched : world :=
  Eval vm_compute in snd (watch_iteration edited launched).

Definition rescanned : world :=
  Eval vm_compute in
    snd ((sleep edited 1000 ;; get_max_mtime edited) relaunched).

(** The world of [deleted] after the scan that finds the sources gone. *)
Definition nothing_seen : world :=
  Eval vm_compute in
    snd ((sleep deleted 1000 ;; get_max_mtime deleted) launched).

(** The worlds of [broken]: before and after its first build, and before and
    after the build of its first pass. *)
Definition first_build : world :=
  Eval vm_compute in snd (baseline broken boot).

Definition first_failure : world :=
  Eval vm_compute in snd (build broken first_build).

Definition second_build : world :=
  Eval vm_compute in snd (poll broken first_failure).

Definition second_failure : world :=
  Eval vm_compute in snd (build broken second_build).

(** The operator's interrupt arrives inside [os.path.getmtime], on the only
    watched file. *)
Definition stat_interrupted : snapshot :=
  {| os_walk := fun top => [ (top, [], ["Inbox.swift"%string]) ];
     os_path_getmtime := fun _ => Raise KeyboardInterrupt |}.

Definition swallowing : environment :=
  {| sigint := fun _ => false;
     completed := fun _ => clean_build;
     exits_in_time := fun _ => true;
     path_exists := fun _ _ => true;
     source_tree := fun _ => stat_interrupted |}.

(** Three watched files in two directories, and the same tree listed the
    other way round. *)
Definition three_files : snapshot :=
  {| os_walk := fun top =>
       [ (top, ["Views"%string], ["Inbox.swift"; "Info.plist"]%string);
         (os_path_join top "Views", [], ["Thread.swift"%string]) ];
     os_path_getmtime := fun path =>
       if String.eqb path "PowerUserMail/Inbox.swift" then Ret 100
       else if String.eqb path "PowerUserMail/Info.plist" then Ret 300
       else if String.eqb path "PowerUserMail/Views/Thread.swift" then Ret 200
       else Raise OSError |}.

Definition three_files_backwards : snapshot :=
  {| os_walk := fun top =>
       [ (os_path_join top "Views", [], ["Thread.swift"%string]);
         (top, ["Views"%string], ["Info.plist"; "Inbox.swift"]%string) ];
     os_path_getmtime := os_path_getmtime three_files |}.

(** Files dated before the epoch only. *)
Definition archived : environment :=
  {| sigint := fun _ => false;
     completed := fun _ => clean_build;
     exits_in_time := fun _ => true;
     path_exists := fun _ _ => true;
     source_tree := fun _ => old_tree |}.

End Scenario.

(** * Properties *)

(** ** The monad and the calls *)

Section Calls.

Variable E : environment.

Lemma tick_record e w : tick (record e w) = S (tick w).
Proof.
  unfold tick, record; simpl. rewrite length_app; simpl. lia.
Qed.

Lemma perform_calm {A} (c : call) (answer : nat -> result A) w :
  sigint E (tick w) = false ->
  perform E c answer w =
  match answer (tick w) with
  | Ret a => (Ret a, record (Done c) w)
  | Raise e => (Raise e, record (Raised c e) w)
  end.
Proof.
  intros H. unfold perform. now rewrite H.
Qed.

Lemma perform_interrupted {A} (c : call) (answer : nat -> result A) w :
  sigint E (tick w) = true ->
  perform E c answer w =
  (Raise KeyboardInterrupt, record (Raised c KeyboardInterrupt) w).
Proof.
  intros H. unfold perform. now rewrite H.
Qed.

(** Whatever a call does, it adds one entry about itself to the log and
    leaves the two variables alone. *)
Lemma perform_inv {A} (c : call) (answer : nat -> result A) w r w' :
  perform E c answer w = (r, w') ->
  exists e, call_of e = c /\ w' = record e w.
Proof.
  unfold perform. destruct (sigint E (tick w)).
  - intros [= <- <-]. now exists (Raised c KeyboardInterrupt).
  - destruct (answer (tick w)); intros [= <- <-].
    + now exists (Done c).
    + now exists (Raised c e).
Qed.

Lemma bind_inv {A B} (m : M A) (k : A -> M B) w r w' :
  bind m k w = (r, w') ->
  (exists a w1, m w = (Ret a, w1) /\ k a w1 = (r, w')) \/
  (exists e, m w = (Raise e, w') /\ r = Raise e).
Proof.
  unfold bind. destruct (m w) as [[a | e] w1].
  - intros H. left. now exists a, w1.
  - intros [= <- <-]. right. now exists e.
Qed.

Lemma bind_ret_l {A B} (m : M A) (k : A -> M B) w a w1 :
  m w = (Ret a, w1) -> bind m k w = k a w1.
Proof.
  intros H. unfold bind. now rewrite H.
Qed.

Lemma bind_raise_l {A B} (m : M A) (k : A -> M B) w e w1 :
  m w = (Raise e, w1) -> bind m k w = (Raise e, w1).
Proof.
  intros H. unfold bind. now rewrite H.
Qed.

End Calls.

Ltac unfold_script :=
  unfold main, startup, watching, on_interrupt, watch_iteration, rebuild,
    baseline, poll, run_app, build, get_max_mtime, sys_exit, print,
    subprocess_run, terminate, wait, kill, sleep, os_path_exists,
    subprocess_Popen, get_current_process, set_current_process,
    get_last_mtime, set_last_mtime, try_except, bind, ret, raise.

(** Run the calls at the head of the goal that [H : calm E _ _] covers. *)
Ltac calmly H :=
  repeat (rewrite perform_calm
            by (apply H; unfold tick, record; cbn [log];
                rewrite ?length_app; cbn [List.length]; lia);
          cbn beta iota).

Ltac tidy :=
  rewrite ?tick_record; unfold record;
  repeat (progress cbn [current_process last_mtime log]);
  rewrite <- ?app_assoc; cbn [app Nat.add].

(** ** run_app *)

Section RunApp.

Variable E : environment.

Lemma tick_log w l c m :
  tick {| current_process := c; last_mtime := m; log := log w ++ l |}
  = (List.length l + tick w)%nat.
Proof.
  unfold tick. cbn [log]. rewrite length_app. lia.
Qed.

Lemma calm_within t n t' n' :
  calm E t n -> (t <= t')%nat -> (t' + n' <= t + n)%nat -> calm E t' n'.
Proof.
  intros H Ht Hn u Hu. apply H. lia.
Qed.

(** [run_app], cut before the sweep. *)
Lemma run_app_cut w :
  run_app E w =
  (match current_process w with
   | Some p => stop_previous E p
   | None => ret tt
   end ;; launch E) w.
Proof. reflexivity. Qed.

Lemma launch_calm w :
  calm E (tick w) 6 ->
  launch E w =
  (Ret tt,
   {| current_process :=
        if path_exists E (4 + tick w) APP_PATH
        then Some (5 + tick w)%nat else current_process w;
      last_mtime := last_mtime w;
      log := log w ++ launch_log E (tick w) |}).
Proof.
  intros Hcalm. unfold launch. unfold_script.
  calmly Hcalm. unfold launch_log. rewrite !tick_record. cbn [Nat.add].
  destruct (path_exists E _ APP_PATH); calmly Hcalm; tidy; reflexivity.
Qed.

Lemma stop_previous_calm w p :
  calm E (tick w) (List.length (stop_log E p (tick w))) ->
  stop_previous E p w =
  (Ret tt,
   {| current_process := current_process w;
      last_mtime := last_mtime w;
      log := log w ++ stop_log E p (tick w) |}).
Proof.
  unfold stop_log. cbn [Nat.add].
  destruct (exits_in_time E (S (S (tick w)))) eqn:Hx;
    cbn [List.length app]; intros Hcalm;
    unfold stop_previous; unfold_script; calmly Hcalm;
    rewrite !tick_record, Hx; cbn [is_TimeoutExpired]; calmly Hcalm; tidy;
    reflexivity.
Qed.

Lemma stop_log_of_length cp t : (List.length (stop_log_of E cp t) <= 5)%nat.
Proof.
  destruct cp as [p |]; cbn [stop_log_of List.length]; [| lia ].
  unfold stop_log. destruct (exits_in_time E _); cbn; lia.
Qed.

(** [run_app] when nothing interrupts it: the stop sequence for the handle it
    holds, if any, then the sweep and the launch. *)
Lemma run_app_calm w :
  let stop := stop_log_of E (current_process w) (tick w) in
  let t := (List.length stop + tick w)%nat in
  calm E (tick w) (List.length stop + 6) ->
  run_app E w =
  (Ret tt,
   {| current_process :=
        if path_exists E (4 + t) APP_PATH
        then Some (5 + t)%nat else current_process w;
      last_mtime := last_mtime w;
      log := log w ++ stop ++ launch_log E t |}).
Proof.
  intros stop t Hcalm. rewrite run_app_cut. subst t stop.
  destruct (current_process w) as [p |] eqn:Hcp; cbn [stop_log_of] in *.
  - assert (Hs : calm E (tick w) (List.length (stop_log E p (tick w))))
      by (eapply calm_within; [ exact Hcalm | lia | lia ]).
    rewrite (bind_ret_l _ _ _ _ _ (stop_previous_calm w p Hs)).
    rewrite launch_calm; rewrite tick_log.
    + cbn [current_process last_mtime log]. rewrite Hcp, <- app_assoc.
      reflexivity.
    + eapply calm_within; [ exact Hcalm | lia | lia ].
  - unfold bind, ret. cbn [List.length Nat.add app] in *.
    rewrite (launch_calm w Hcalm), Hcp. reflexivity.
Qed.


(** C7.  With a handle [p] set, [run_app] asks [p] to terminate and waits one
    second; when the wait times out it kills [p]; in both cases it goes on
    with the sweep and the launch and returns normally. *)
Theorem run_app_with_handle (w : world) (p : handle) :
  current_process w = Some p ->
  calm E (tick w) 11 ->
  let stop := stop_log E p (tick w) in
  let t := (List.length stop + tick w)%nat in
  run_app E w =
  (Ret tt,
   {| current_process :=
        if path_exists E (4 + t) APP_PATH then Some (5 + t)%nat else Some p;
      last_mtime := last_mtime w;
      log := log w ++ stop ++ launch_log E t |}).
Proof.
  intros Hsome Hcalm. pose proof (run_app_calm w) as H.
  pose proof (stop_log_of_length (Some p) (tick w)) as Hlen.
  rewrite Hsome in H. cbn [stop_log_of] in H, Hlen.
  cbv zeta in H |- *. apply H.
  eapply calm_within; [ exact Hcalm | lia | lia ].
Qed.

(** C1, as the code has it.  When the binary is missing, [run_app] prints the
    error, launches nothing and returns normally; [current_process] is what it
    was on entry. *)
Theorem run_app_binary_missing (w : world) :
  calm E (tick w) 11 ->
  missing E (tick w) 11 ->
  exists l,
    run_app E w =
    (Ret tt,
     {| current_process := current_process w;
        last_mtime := last_mtime w;
        log := log w ++ l ++ [ Done (Print BinaryNotFound) ] |}) /\
    forallb (fun e => match call_of e with Popen _ => false | _ => true end) l
    = true.
Proof.
  intros Hcalm Hmiss.
  pose proof (stop_log_of_length (current_process w) (tick w)) as Hlen.
  rewrite run_app_calm
    by (eapply calm_within; [ exact Hcalm | lia | lia ]).
  unfold launch_log. rewrite Hmiss by lia.
  exists (stop_log_of E (current_process w) (tick w) ++
          [ Done (SubprocessRun killall); Done (Sleep 500);
            Done (Print RunningApp); Done (Print Rule);
            Done (PathExists APP_PATH) ]).
  split.
  - rewrite <- !app_assoc. reflexivity.
  - rewrite forallb_app. apply andb_true_intro. split; [| reflexivity ].
    destruct (current_process w) as [p |]; [| reflexivity ].
    cbn [stop_log_of]. unfold stop_log.
    destruct (exits_in_time E _); reflexivity.
Qed.

End RunApp.


Lemma run_app_with_handle_witness :
  run_app Scenario.stubborn Scenario.launched =
  (Ret tt,
   {| current_process := Some 21%nat;
      last_mtime := 100;
      log := log Scenario.launched ++
             [ Done (Print StoppingPrevious); Done (Terminate 10%nat);
               Raised (Wait 10%nat 1) TimeoutExpired;
               Done (Print ForceKilling); Done (Kill 10%nat);
               Done (SubprocessRun killall); Done (Sleep 500);
               Done (Print RunningApp); Done (Print Rule);
               Done (PathExists APP_PATH); Done (Popen [APP_PATH]) ] |}).
Proof.
  apply (run_app_with_handle Scenario.stubborn Scenario.launched 10%nat).
  - reflexivity.
  - intros t _. reflexivity.
Defined.

Lemma run_app_binary_missing_witness :
  exists l,
    run_app Scenario.cleaned Scenario.rebuilt =
    (Ret tt,
     {| current_process := Some 10%nat;
        last_mtime := 200;
        log := log Scenario.rebuilt ++ l ++ [ Done (Print BinaryNotFound) ] |})
    /\
    forallb (fun e => match call_of e with Popen _ => false | _ => true end) l
    = true.
Proof.
  apply (run_app_binary_missing Scenario.cleaned Scenario.rebuilt).
  - intros t _. reflexivity.
  - intros t Ht. change (tick Scenario.rebuilt) with 18%nat in Ht.
    cbn [path_exists Scenario.cleaned]. apply Nat.ltb_ge. lia.
Defined.

(** C1, as stated, fails: the first launch of [cleaned] stores handle [10];
    the second [run_app] finds the binary gone, and [current_process] still
    holds [10] when it returns.  Nothing in [run_app] assigns [None]. *)
Lemma run_app_leaves_stale_handle :
  missing Scenario.cleaned (tick Scenario.rebuilt) 11 /\
  current_process Scenario.rebuilt = Some 10%nat /\
  fst (run_app Scenario.cleaned Scenario.rebuilt) = Ret tt /\
  current_process (snd (run_app Scenario.cleaned Scenario.rebuilt))
  = Some 10%nat /\
  current_process (snd (main Scenario.cleaned 1 boot)) <> None.
Proof.
  split; [| split; [| split; [| split ]]].
  - intros t Ht. change (tick Scenario.rebuilt) with 18%nat in Ht.
    cbn [path_exists Scenario.cleaned]. apply Nat.ltb_ge. lia.
  - reflexivity.
  - vm_compute. reflexivity.
  - vm_compute. reflexivity.
  - vm_compute. discriminate.
Qed.

(** ** What a stretch of code leaves alone *)

Section Frame.

Variable E : environment.
Variable R : world -> world -> Prop.
Variable allowed : call -> Prop.

Hypothesis R_refl : forall w, R w w.
Hypothesis R_trans : forall w1 w2 w3, R w1 w2 -> R w2 w3 -> R w1 w3.
Hypothesis R_record : forall e w, allowed (call_of e) -> R w (record e w).

Lemma respects_ret {A} (a : A) : respects R (ret a).
Proof. intros w r w' [= <- <-]. apply R_refl. Qed.

Lemma respects_raise {A} (e : exn) : respects R (@raise A e).
Proof. intros w r w' [= <- <-]. apply R_refl. Qed.

Lemma respects_bind {A B} (m : M A) (k : A -> M B) :
  respects R m -> (forall a, respects R (k a)) -> respects R (bind m k).
Proof.
  intros Hm Hk w r w' H.
  destruct (bind_inv _ _ _ _ _ H) as [(a & w1 & H1 & H2) | (e & H1 & _)].
  - eapply R_trans; [ eapply Hm | eapply Hk ]; eassumption.
  - eapply Hm; eassumption.
Qed.

Lemma respects_try {A} (m h : M A) (catches : exn -> bool) :
  respects R m -> respects R h -> respects R (try_except m catches h).
Proof.
  intros Hm Hh w r w'. unfold try_except.
  destruct (m w) as [[a | e] w1] eqn:H1.
  - intros [= <- <-]. eapply Hm; eassumption.
  - destruct (catches e).
    + intros H2. eapply R_trans; [ eapply Hm | eapply Hh ]; eassumption.
    + intros [= <- <-]. eapply Hm; eassumption.
Qed.

Lemma respects_perform {A} (c : call) (answer : nat -> result A) :
  allowed c -> respects R (perform E c answer).
Proof.
  intros Hc w r w' H.
  destruct (perform_inv _ _ _ _ _ _ H) as (e & He & ->).
  apply R_record. now rewrite He.
Qed.

Lemma respects_get_current_process : respects R get_current_process.
Proof. intros w r w' [= <- <-]. apply R_refl. Qed.

Lemma respects_get_last_mtime : respects R get_last_mtime.
Proof. intros w r w' [= <- <-]. apply R_refl. Qed.

End Frame.

(** Take a stretch of code apart along its binds and branches. *)
Ltac frame :=
  repeat first
    [ match goal with H : respects _ ?m |- respects _ ?m => exact H end
    | eapply respects_ret; eassumption
    | eapply respects_raise; eassumption
    | eapply respects_get_current_process; eassumption
    | eapply respects_get_last_mtime; eassumption
    | eapply respects_perform; [ eassumption | ]
    | eapply respects_bind; [ eassumption | | intros ? ]
    | eapply respects_try; [ eassumption | | ]
    | match goal with
      | |- respects _ (if ?b then _ else _) => destruct b
      | |- respects _ (match ?x with Some _ => _ | None => _ end) =>
          destruct x
      end ].

Section FrameOfScript.

Variable E : environment.
Variable R : world -> world -> Prop.
Variable allowed : call -> Prop.

Hypothesis R_refl : forall w, R w w.
Hypothesis R_trans : forall w1 w2 w3, R w1 w2 -> R w2 w3 -> R w1 w3.
Hypothesis R_record : forall e w, allowed (call_of e) -> R w (record e w).

Lemma build_respects :
  (forall m, allowed (Print m)) -> allowed (SubprocessRun xcodebuild) ->
  respects R (build E).
Proof.
  intros Hprint Hrun.
  unfold build, print, subprocess_run. frame; auto.
Qed.

Lemma run_app_respects :
  (forall c, allowed c) ->
  respects R (set_current_process None) ->
  (forall p, respects R (set_current_process (Some p))) ->
  respects R (run_app E).
Proof.
  intros Hall Hnone Hsome.
  unfold run_app, print, subprocess_run, terminate, wait, kill, sleep,
    os_path_exists, subprocess_Popen.
  frame; auto.
Qed.

End FrameOfScript.

(** ** A cycle whose build fails *)

Section FailedBuild.

Variable E : environment.








(** [startup] and a pass of the loop, cut at their build. *)
Lemma startup_cut w : startup E w = (baseline E ;; rebuild E) w.
Proof.
  unfold startup, baseline, rebuild, bind.
  destruct (print E Watching w) as [[[] | e] w1]; [| reflexivity ].
  destruct (get_max_mtime E w1) as [[m | e] w2]; reflexivity.
Qed.

Lemma watch_iteration_cut w :
  watch_iteration E w =
  (changed <- poll E ;; if changed then rebuild E else ret tt) w.
Proof.
  unfold watch_iteration, poll, rebuild, bind.
  destruct (sleep E 1000 w) as [[[] | e] w1]; [| reflexivity ].
  destruct (get_max_mtime E w1) as [[m | e] w2]; [| reflexivity ].
  unfold get_last_mtime.
  destruct (m >? last_mtime w2); [| reflexivity ].
  destruct (print E ChangeDetected w2) as [[[] | e] w3]; [| reflexivity ].
  unfold set_last_mtime.
  destruct (sleep E 500 _) as [[[] | e] w4]; reflexivity.
Qed.

Lemma rebuild_after_failure w w' :
  build E w = (Ret false, w') -> rebuild E w = (Ret tt, w').
Proof.
  intros H. unfold rebuild. now rewrite (bind_ret_l _ _ _ _ _ H).
Qed.

Lemma startup_after_failure w0 w w' :
  baseline E w0 = (Ret tt, w) -> build E w = (Ret false, w') ->
  startup E w0 = (Ret tt, w').
Proof.
  intros H0 H. rewrite startup_cut, (bind_ret_l _ _ _ _ _ H0).
  now apply rebuild_after_failure.
Qed.

Lemma watch_iteration_after_failure w0 w w' :
  poll E w0 = (Ret true, w) -> build E w = (Ret false, w') ->
  watch_iteration E w0 = (Ret tt, w').
Proof.
  intros H0 H. rewrite watch_iteration_cut, (bind_ret_l _ _ _ _ _ H0).
  now apply rebuild_after_failure.
Qed.

(** C2.  When the build of a cycle returns [False] in world [w'], the cycle
    is over in [w']: [run_app] is not entered, neither in the initial cycle
    (which goes on to the watch loop) nor in a pass of the loop (which goes
    on to the next pass). *)
Theorem failed_build_skips_run_app (w w' : world) :
  build E w = (Ret false, w') ->
  rebuild E w = (Ret tt, w') /\
  (forall w0 n,
      baseline E w0 = (Ret tt, w) ->
      startup E w0 = (Ret tt, w') /\ main E n w0 = watching E n w') /\
  (forall w0 n,
      poll E w0 = (Ret true, w) ->
      watch_iteration E w0 = (Ret tt, w') /\
      watch_loop E (S n) w0 = watch_loop E n w').
Proof.
  intros H. split; [| split ].
  - now apply rebuild_after_failure.
  - intros w0 n H0.
    pose proof (startup_after_failure _ _ _ H0 H) as Hs. split; [ exact Hs |].
    unfold main. now rewrite (bind_ret_l _ _ _ _ _ Hs).
  - intros w0 n H0.
    pose proof (watch_iteration_after_failure _ _ _ H0 H) as Hi.
    split; [ exact Hi |].
    cbn [watch_loop]. now rewrite (bind_ret_l _ _ _ _ _ Hi).
Qed.


End FailedBuild.

Lemma failed_build_skips_run_app_witness :
  (startup Scenario.broken boot = (Ret tt, Scenario.first_failure) /\
   main Scenario.broken 1 boot
   = watching Scenario.broken 1 Scenario.first_failure) /\
  (watch_iteration Scenario.broken Scenario.first_failure
   = (Ret tt, Scenario.second_failure) /\
   watch_loop Scenario.broken 2 Scenario.first_failure
   = watch_loop Scenario.broken 1 Scenario.second_failure).
Proof.
  split.
  - destruct (failed_build_skips_run_app Scenario.broken
                Scenario.first_build Scenario.first_failure) as (_ & H & _).
    + vm_compute. reflexivity.
    + apply H. vm_compute. reflexivity.
  - destruct (failed_build_skips_run_app Scenario.broken
                Scenario.second_build Scenario.second_failure) as (_ & _ & H).
    + vm_compute. reflexivity.
    + apply H. vm_compute. reflexivity.
Defined.


(** ** get_max_mtime *)

Section Scan.

Lemma gtb_max (m acc : Z) : (if m >? acc then m else acc) = Z.max acc m.
Proof.
  destruct (Z.gtb_spec m acc); lia.
Qed.

Lemma visit_max s root acc f :
  visit s root acc f = fold_left Z.max (readable_mtime s root f) acc.
Proof.
  unfold visit, readable_mtime. destruct (watched f); [| reflexivity ].
  destruct (os_path_getmtime s _); [ apply gtb_max | reflexivity ].
Qed.

Lemma visit_files_max s root files acc :
  fold_left (visit s root) files acc =
  fold_left Z.max (flat_map (readable_mtime s root) files) acc.
Proof.
  revert acc. induction files as [| f files IH]; intros acc; cbn.
  - reflexivity.
  - now rewrite fold_left_app, IH, visit_max.
Qed.

Lemma visit_dirs_max s triples acc :
  fold_left (visit_dir s) triples acc =
  fold_left Z.max
    (flat_map (fun '(root, _, files) => flat_map (readable_mtime s root) files)
              triples) acc.
Proof.
  revert acc. induction triples as [| [[root dirs] files] triples IH];
    intros acc; cbn.
  - reflexivity.
  - now rewrite fold_left_app, IH, visit_files_max.
Qed.

(** The loops of [get_max_mtime] compute the running maximum, from [0], of
    the timestamps the specification speaks of. *)
Lemma get_max_mtime_of_fold s :
  get_max_mtime_of s = fold_left Z.max (watched_mtimes s) 0.
Proof.
  apply visit_dirs_max.
Qed.

Lemma fold_max_acc l a b :
  fold_left Z.max l (Z.max a b) = Z.max a (fold_left Z.max l b).
Proof.
  revert b. induction l as [| m l IH]; intros b; cbn.
  - reflexivity.
  - now rewrite <- Z.max_assoc, IH.
Qed.

Lemma fold_max_ge_acc l a : a <= fold_left Z.max l a.
Proof.
  revert a. induction l as [| m l IH]; intros a; cbn.
  - lia.
  - specialize (IH (Z.max a m)). lia.
Qed.

Lemma fold_max_ge_elt l a m : In m l -> m <= fold_left Z.max l a.
Proof.
  revert a. induction l as [| x l IH]; intros a; cbn.
  - contradiction.
  - intros [-> | Hin].
    + pose proof (fold_max_ge_acc l (Z.max a m)). lia.
    + now apply IH.
Qed.

Lemma fold_max_attained l a :
  fold_left Z.max l a = a \/ In (fold_left Z.max l a) l.
Proof.
  revert a. induction l as [| x l IH]; intros a; cbn.
  - now left.
  - destruct (IH (Z.max a x)) as [H | H].
    + rewrite H. destruct (Z.max_spec a x) as [[_ ->] | [_ ->]]; auto.
    + auto.
Qed.

Lemma In_watched_mtimes s m :
  In m (watched_mtimes s) <->
  exists root dirs files f,
    In (root, dirs, files) (os_walk s SOURCE_DIR) /\ In f files /\
    watched f = true /\ os_path_getmtime s (os_path_join root f) = Ret m.
Proof.
  unfold watched_mtimes. rewrite in_flat_map. split.
  - intros ([[root dirs] files] & Hdir & Hin).
    apply in_flat_map in Hin as (f & Hf & Hm).
    exists root, dirs, files, f. unfold readable_mtime in Hm.
    destruct (watched f); [| contradiction ].
    destruct (os_path_getmtime s _) as [m' |]; [| contradiction ].
    destruct Hm as [-> | []]. auto.
  - intros (root & dirs & files & f & Hdir & Hf & Hw & Hm).
    exists (root, dirs, files). split; [ exact Hdir |].
    apply in_flat_map. exists f. split; [ exact Hf |].
    unfold readable_mtime. rewrite Hw, Hm. now left.
Qed.

Lemma get_max_mtime_of_spec s :
  get_max_mtime_of s = Z.max 0 (spec_scan s).
Proof.
  rewrite get_max_mtime_of_fold. unfold spec_scan.
  destruct (watched_mtimes s) as [| m ms]; cbn.
  - reflexivity.
  - apply fold_max_acc.
Qed.

Lemma spec_scan_ge s m : In m (watched_mtimes s) -> m <= spec_scan s.
Proof.
  unfold spec_scan. destruct (watched_mtimes s) as [| x ms]; cbn.
  - contradiction.
  - intros [-> | Hin]; [ apply fold_max_ge_acc | now apply fold_max_ge_elt ].
Qed.

(** Snapshots that agree on the watched files scan alike. *)
Lemma same_watched_mtimes s s' :
  same_watched s s' -> watched_mtimes s' = watched_mtimes s.
Proof.
  intros [Hwalk Hmt]. unfold watched_mtimes. rewrite Hwalk.
  revert Hmt. generalize (os_walk s SOURCE_DIR) as triples.
  induction triples as [| [[root dirs] files] triples IH]; intros Hmt; cbn.
  - reflexivity.
  - rewrite IH
      by (intros r d fs f Hd Hf Hw;
          apply (Hmt r d fs f); [ now right | exact Hf | exact Hw ]).
    f_equal.
    assert (Hfiles : forall f, In f files -> watched f = true ->
              os_path_getmtime s' (os_path_join root f)
              = os_path_getmtime s (os_path_join root f))
      by (intros f Hf Hw;
          apply (Hmt root dirs files f); [ now left | exact Hf | exact Hw ]).
    clear -Hfiles. induction files as [| f files IHf]; cbn.
    + reflexivity.
    + rewrite IHf by (intros g Hg Hw; apply Hfiles; [ now right | exact Hw ]).
      f_equal.
      unfold readable_mtime. destruct (watched f) eqn:Hw; [| reflexivity ].
      rewrite Hfiles; [ reflexivity | now left | exact Hw ].
Qed.

Variable E : environment.

(** C3, as the code has it.  A scan that is not interrupted while listing
    returns, whatever the tree holds and whichever files fail to stat, the
    maximum of epoch zero and the timestamps of exactly the readable watched
    files: it is [0] when there is no such file, it bounds every such
    timestamp, it is [0] or one of them, and it is their maximum as soon as
    one of them is not before the epoch. *)
Theorem get_max_mtime_scans (w : world) :
  sigint E (tick w) = false ->
  let s := source_tree E (tick w) in
  exists v,
    get_max_mtime E w = (Ret v, record (Done (OsWalk SOURCE_DIR)) w) /\
    v = Z.max 0 (spec_scan s) /\
    (watched_mtimes s = [] -> v = 0) /\
    (forall root dirs files f m,
        In (root, dirs, files) (os_walk s SOURCE_DIR) -> In f files ->
        watched f = true ->
        os_path_getmtime s (os_path_join root f) = Ret m -> m <= v) /\
    (v = 0 \/
     exists root dirs files f,
       In (root, dirs, files) (os_walk s SOURCE_DIR) /\ In f files /\
       watched f = true /\ os_path_getmtime s (os_path_join root f) = Ret v) /\
    (Exists (fun m => 0 <= m) (watched_mtimes s) -> v = spec_scan s).
Proof.
  intros Hcalm s. exists (get_max_mtime_of s).
  split; [| split; [| split; [| split; [| split ]]]].
  - unfold get_max_mtime. now rewrite perform_calm.
  - apply get_max_mtime_of_spec.
  - intros H. now rewrite get_max_mtime_of_fold, H.
  - intros root dirs files f m Hdir Hf Hw Hm.
    rewrite get_max_mtime_of_fold. apply fold_max_ge_elt.
    apply In_watched_mtimes. now exists root, dirs, files, f.
  - rewrite get_max_mtime_of_fold.
    destruct (fold_max_attained (watched_mtimes s) 0) as [H | H].
    + now left.
    + right. now apply In_watched_mtimes.
  - intros H. rewrite get_max_mtime_of_spec.
    apply Exists_exists in H as (m & Hin & Hm).
    pose proof (spec_scan_ge s m Hin). lia.
Qed.

End Scan.

Lemma get_max_mtime_scans_witness :
  exists v,
    get_max_mtime Scenario.steady boot
    = (Ret v, record (Done (OsWalk SOURCE_DIR)) boot) /\
    v = Z.max 0 (spec_scan (Scenario.tree 100 50)) /\
    v = 100.
Proof.
  destruct (get_max_mtime_scans Scenario.steady boot eq_refl)
    as (v & Hrun & Hv & _).
  exists v. split; [ exact Hrun | split; [ exact Hv |] ].
  rewrite Hv. vm_compute. reflexivity.
Defined.

(** The bare [except] of line 75 also catches an interrupt that arrives inside
    [os.path.getmtime]: the file is skipped, the scan returns, and [main] goes
    on polling. *)
Lemma scan_swallows_interrupt :
  get_max_mtime Scenario.swallowing boot
  = (Ret 0, record (Done (OsWalk SOURCE_DIR)) boot) /\
  fst (main Scenario.swallowing 3 boot) = Ret tt.
Proof.
  split; vm_compute; reflexivity.
Qed.

(** C3, as stated, fails: a tree whose only watched file was last modified
    one second before the epoch scans to [0], which is not the maximum
    timestamp over the watched files ([-1]), although a matching file
    exists. *)
Lemma get_max_mtime_floors_at_epoch :
  watched_mtimes Scenario.old_tree = [-1] /\
  spec_scan Scenario.old_tree = -1 /\
  get_max_mtime_of Scenario.old_tree = 0 /\
  fst (get_max_mtime Scenario.archived boot) = Ret 0 /\
  fst (get_max_mtime Scenario.archived boot)
  <> Ret (spec_scan Scenario.old_tree).
Proof.
  repeat split; vm_compute; congruence.
Qed.

(** ** One pass of the watch loop *)

Section Pass.

Variable E : environment.

Lemma build_calm w :
  calm E (tick w) 5 ->
  exists l,
    build E w =
    (Ret (returncode (completed E (1 + tick w)) =? 0),
     {| current_process := current_process w;
        last_mtime := last_mtime w;
        log := log w ++ Done (Print Building)
                     :: Done (SubprocessRun xcodebuild) :: l |}) /\
    (List.length l <= 3)%nat.
Proof.
  intros Hcalm. unfold_script. calmly Hcalm. rewrite !tick_record.
  cbn [Nat.add].
  destruct (returncode _ =? 0); cbn [negb]; calmly Hcalm.
  - exists [ Done (Print BuildSucceeded) ]. tidy. split; [ reflexivity |].
    cbn; lia.
  - destruct (truthy (stderr _)), (truthy (stdout _)); calmly Hcalm; tidy;
      eexists; (split; [ reflexivity | cbn; lia ]).
Qed.

Lemma poll_calm w :
  calm E (tick w) 4 ->
  let c := get_max_mtime_of (source_tree E (1 + tick w)) in
  poll E w =
  if c >? last_mtime w then
    (Ret true,
     {| current_process := current_process w;
        last_mtime := c;
        log := log w ++ [ Done (Sleep 1000); Done (OsWalk SOURCE_DIR);
                          Done (Print ChangeDetected); Done (Sleep 500) ] |})
  else
    (Ret false,
     {| current_process := current_process w;
        last_mtime := last_mtime w;
        log := log w ++ [ Done (Sleep 1000); Done (OsWalk SOURCE_DIR) ] |}).
Proof.
  intros Hcalm c. subst c. unfold_script. calmly Hcalm. rewrite !tick_record.
  cbn [Nat.add record last_mtime].
  destruct (_ >? last_mtime w); calmly Hcalm; tidy; reflexivity.
Qed.

Lemma xcodebuild_is_xcodebuild :
  is_xcodebuild (Done (SubprocessRun xcodebuild)) = true.
Proof. reflexivity. Qed.

(** The whole pass when nothing interrupts it. *)
Lemma watch_iteration_calm w :
  calm E (tick w) 20 ->
  let c := get_max_mtime_of (source_tree E (1 + tick w)) in
  exists w' l,
    watch_iteration E w = (Ret tt, w') /\ log w' = log w ++ l /\
    existsb is_xcodebuild l = (last_mtime w <? c) /\
    (c <= last_mtime w ->
     l = [ Done (Sleep 1000); Done (OsWalk SOURCE_DIR) ]).
Proof.
  intros Hcalm c.
  assert (H4 : calm E (tick w) 4)
    by (apply (calm_within E (tick w) 20); [ exact Hcalm | lia | lia ]).
  rewrite watch_iteration_cut. unfold bind at 1.
  rewrite (poll_calm w H4). fold c. rewrite Z.gtb_ltb.
  destruct (Z.ltb_spec (last_mtime w) c) as [Hlt | Hge].
  - set (w1 := {| current_process := _; last_mtime := c; log := _ |}).
    assert (Ht1 : tick w1 = (4 + tick w)%nat) by apply tick_log.
    destruct (build_calm w1) as (lb & Hb & Hlb).
    { apply (calm_within E (tick w) 20); [ exact Hcalm | lia | lia ]. }
    unfold rebuild. unfold bind at 1. rewrite Hb.
    set (w2 := {| current_process := _; last_mtime := _; log := _ ++ _ |}).
    assert (Ht2 : (tick w <= tick w2 <= 9 + tick w)%nat).
    { unfold w2. rewrite tick_log. cbn [List.length]. lia. }
    assert (Hl2 : log w2 = log w ++
              [ Done (Sleep 1000); Done (OsWalk SOURCE_DIR);
                Done (Print ChangeDetected); Done (Sleep 500);
                Done (Print Building); Done (SubprocessRun xcodebuild) ] ++ lb).
    { unfold w2, w1. cbn [log]. now rewrite <- app_assoc. }
    assert (Hx : forall l',
               existsb is_xcodebuild
                 (([ Done (Sleep 1000); Done (OsWalk SOURCE_DIR);
                     Done (Print ChangeDetected); Done (Sleep 500);
                     Done (Print Building);
                     Done (SubprocessRun xcodebuild) ] ++ lb) ++ l') = true).
    { intros l'. apply existsb_exists.
      exists (Done (SubprocessRun xcodebuild)).
      split; [| apply xcodebuild_is_xcodebuild ].
      do 2 (apply in_or_app; left). cbn [In]. auto 10. }
    destruct (returncode _ =? 0).
    + pose proof (stop_log_of_length E (current_process w2) (tick w2)).
      rewrite (run_app_calm E w2)
        by (apply (calm_within E (tick w) 20); [ exact Hcalm | lia | lia ]).
      eexists _, _. split; [ reflexivity |]. cbn [log].
      split; [ rewrite Hl2, <- app_assoc; reflexivity |].
      split; [ apply Hx | lia ].
    + unfold ret. eexists _, _. split; [ reflexivity |].
      split; [ rewrite Hl2; rewrite <- (app_nil_r lb) at 1; reflexivity |].
      split; [ rewrite <- (Hx []); now rewrite app_nil_r | lia ].
  - unfold ret. eexists _, _. split; [ reflexivity |]. cbn [log].
    split; [ reflexivity |]. split; [ reflexivity | reflexivity ].
Qed.

(** C4.  A pass that nothing interrupts runs the build exactly when the scan
    it makes exceeds the baseline.  So it does as soon as one readable
    watched file carries a timestamp past the baseline; and a tree that
    differs from an earlier one only in files that are not watched scans to
    the same value, and to no build when the baseline had caught up with the
    earlier scan. *)
Theorem rebuild_exactly_on_newer_scan (w : world) :
  calm E (tick w) 20 ->
  let s := source_tree E (1 + tick w) in
  (exists w' l,
      watch_iteration E w = (Ret tt, w') /\ log w' = log w ++ l /\
      existsb is_xcodebuild l = (last_mtime w <? get_max_mtime_of s)) /\
  (forall root dirs files f m,
      In (root, dirs, files) (os_walk s SOURCE_DIR) -> In f files ->
      watched f = true ->
      os_path_getmtime s (os_path_join root f) = Ret m ->
      last_mtime w < m ->
      last_mtime w < get_max_mtime_of s) /\
  (forall s0,
      same_watched s0 s ->
      get_max_mtime_of s = get_max_mtime_of s0 /\
      (get_max_mtime_of s0 <= last_mtime w ->
       exists w',
         watch_iteration E w = (Ret tt, w') /\
         log w' = log w ++ [ Done (Sleep 1000); Done (OsWalk SOURCE_DIR) ])).
Proof.
  intros Hcalm s.
  destruct (watch_iteration_calm w Hcalm) as (w' & l & Hrun & Hlog & Hx & Hno).
  fold s in Hx, Hno.
  split; [| split ].
  - now exists w', l.
  - intros root dirs files f m Hdir Hf Hw Hm Hlt.
    rewrite get_max_mtime_of_fold.
    assert (m <= fold_left Z.max (watched_mtimes s) 0); [| lia ].
    apply fold_max_ge_elt, In_watched_mtimes.
    now exists root, dirs, files, f.
  - intros s0 Hsame.
    assert (Heq : get_max_mtime_of s = get_max_mtime_of s0)
      by (now rewrite !get_max_mtime_of_fold, (same_watched_mtimes s0 s)).
    split; [ exact Heq |]. intros Hle. exists w'.
    split; [ exact Hrun |]. rewrite Hlog, Hno; [ reflexivity | lia ].
Qed.

End Pass.

Lemma rebuild_exactly_on_newer_scan_witness :
  (exists w' l,
      watch_iteration Scenario.edited Scenario.launched = (Ret tt, w') /\
      log w' = log Scenario.launched ++ l /\
      existsb is_xcodebuild l = true) /\
  100 < get_max_mtime_of (Scenario.tree 200 50) /\
  get_max_mtime_of (Scenario.tree 200 50)
  = get_max_mtime_of (Scenario.tree 200 7).
Proof.
  destruct (rebuild_exactly_on_newer_scan Scenario.edited Scenario.launched)
    as (H1 & H2 & H3).
  { intros t _. reflexivity. }
  split; [ exact H1 | split ].
  - apply (H2 SOURCE_DIR ["Views"%string]
              ["PowerUserMailApp.swift"; "README.md"]%string
              "PowerUserMailApp.swift"%string 200).
    + left. reflexivity.
    + left. reflexivity.
    + vm_compute. reflexivity.
    + vm_compute. reflexivity.
    + reflexivity.
  - apply (H3 (Scenario.tree 200 7)). split; [ reflexivity |].
    intros root dirs files f Hd Hf Hw.
    destruct Hd as [[= <- <- <-] | [[= <- <- <-] | []]].
    + destruct Hf as [<- | [<- | []]].
      * vm_compute. reflexivity.
      * vm_compute in Hw. discriminate.
    + destruct Hf as [<- | []]. vm_compute. reflexivity.
Defined.

(** ** The watch baseline *)

Section Baseline.

Variable E : environment.

Lemma baseline_kept_refl w : baseline_kept w w.
Proof. reflexivity. Qed.

Lemma baseline_kept_trans w1 w2 w3 :
  baseline_kept w1 w2 -> baseline_kept w2 w3 -> baseline_kept w1 w3.
Proof. unfold baseline_kept. congruence. Qed.

Lemma baseline_kept_record e w :
  any_call (call_of e) -> baseline_kept w (record e w).
Proof. reflexivity. Qed.

Lemma baseline_kept_set_current_process p :
  respects baseline_kept (set_current_process p).
Proof. intros w r w' [= <- <-]. reflexivity. Qed.

Lemma build_keeps_baseline : respects baseline_kept (build E).
Proof.
  apply (build_respects E baseline_kept any_call
           baseline_kept_refl baseline_kept_trans baseline_kept_record);
    intros; exact I.
Qed.

Lemma run_app_keeps_baseline : respects baseline_kept (run_app E).
Proof.
  apply (run_app_respects E baseline_kept any_call
           baseline_kept_refl baseline_kept_trans baseline_kept_record).
  - intros; exact I.
  - apply baseline_kept_set_current_process.
  - intros p. apply baseline_kept_set_current_process.
Qed.

Lemma debounce_and_rebuild_keep_baseline :
  respects baseline_kept (sleep E 500 ;; rebuild E).
Proof.
  pose proof baseline_kept_refl. pose proof baseline_kept_trans.
  pose proof baseline_kept_record.
  pose proof build_keeps_baseline. pose proof run_app_keeps_baseline.
  unfold rebuild, sleep. frame; exact I.
Qed.

Lemma perform_ret_inv {A} (c : call) (answer : nat -> result A) w a w' :
  perform E c answer w = (Ret a, w') ->
  w' = record (Done c) w /\ answer (tick w) = Ret a.
Proof.
  unfold perform. destruct (sigint E (tick w)); [ discriminate |].
  destruct (answer (tick w)); [| discriminate ].
  intros [= <- <-]. auto.
Qed.

(** What a poll that gets its scan has seen and done. *)
Lemma scan_inv w c w1 :
  (sleep E 1000 ;; get_max_mtime E) w = (Ret c, w1) ->
  sleep E 1000 w = (Ret tt, record (Done (Sleep 1000)) w) /\
  get_max_mtime E (record (Done (Sleep 1000)) w) = (Ret c, w1) /\
  w1 = record (Done (OsWalk SOURCE_DIR)) (record (Done (Sleep 1000)) w) /\
  c = get_max_mtime_of (source_tree E (S (tick w))).
Proof.
  intros H.
  destruct (bind_inv _ _ _ _ _ H) as [([] & w0 & Hs & Hg) | (e & _ & [=])].
  destruct (perform_ret_inv _ _ _ _ _ Hs) as [-> _].
  destruct (perform_ret_inv _ _ _ _ _ Hg) as [-> Hc].
  rewrite tick_record in Hc. injection Hc as <-. auto.
Qed.

Lemma watch_iteration_no_change w c w1 :
  (sleep E 1000 ;; get_max_mtime E) w = (Ret c, w1) ->
  c <= last_mtime w ->
  watch_iteration E w = (Ret tt, w1) /\
  last_mtime w1 = last_mtime w /\
  log w1 = log w ++ [ Done (Sleep 1000); Done (OsWalk SOURCE_DIR) ].
Proof.
  intros H Hle. destruct (scan_inv _ _ _ H) as (Hs & Hg & Hw1 & _).
  split; [| split ].
  - unfold watch_iteration.
    rewrite (bind_ret_l _ _ _ _ _ Hs), (bind_ret_l _ _ _ _ _ Hg).
    unfold get_last_mtime, bind. subst w1. cbn [last_mtime record].
    destruct (Z.gtb_spec c (last_mtime w)); [ lia | reflexivity ].
  - now subst w1.
  - subst w1. cbn [log record]. now rewrite <- app_assoc.
Qed.

Lemma watch_iteration_change w c w1 w2 :
  (sleep E 1000 ;; get_max_mtime E) w = (Ret c, w1) ->
  last_mtime w < c ->
  print E ChangeDetected w1 = (Ret tt, w2) ->
  watch_iteration E w =
  (sleep E 500 ;; rebuild E)
    {| current_process := current_process w2; last_mtime := c;
       log := log w2 |}.
Proof.
  intros H Hlt Hp. destruct (scan_inv _ _ _ H) as (Hs & Hg & Hw1 & _).
  unfold watch_iteration.
  rewrite (bind_ret_l _ _ _ _ _ Hs), (bind_ret_l _ _ _ _ _ Hg).
  unfold get_last_mtime at 1. unfold bind at 1.
  replace (last_mtime w1) with (last_mtime w) by now subst w1.
  destruct (Z.gtb_spec c (last_mtime w)); [| lia ].
  rewrite (bind_ret_l _ _ _ _ _ Hp). reflexivity.
Qed.

(** What a pass does to the baseline: nothing, or it raises it to the value
    of its scan. *)
Lemma watch_iteration_baseline w r w' :
  watch_iteration E w = (r, w') ->
  last_mtime w' = last_mtime w \/
  exists c w1,
    (sleep E 1000 ;; get_max_mtime E) w = (Ret c, w1) /\
    last_mtime w < c /\ last_mtime w' = c.
Proof.
  intros H.
  destruct (sleep E 1000 w) as [[[] | e] w0] eqn:Hs.
  2:{ left. unfold watch_iteration in H.
      rewrite (bind_raise_l _ _ _ _ _ Hs) in H. injection H as <- <-.
      destruct (perform_inv _ _ _ _ _ _ Hs) as (ev & _ & ->). reflexivity. }
  destruct (get_max_mtime E w0) as [[c | e] w1] eqn:Hg.
  2:{ left. unfold watch_iteration in H.
      rewrite (bind_ret_l _ _ _ _ _ Hs), (bind_raise_l _ _ _ _ _ Hg) in H.
      injection H as <- <-.
      destruct (perform_inv _ _ _ _ _ _ Hs) as (ev & _ & ->).
      destruct (perform_inv _ _ _ _ _ _ Hg) as (ev' & _ & ->). reflexivity. }
  assert (Hscan : (sleep E 1000 ;; get_max_mtime E) w = (Ret c, w1))
    by (now rewrite (bind_ret_l _ _ _ _ _ Hs)).
  destruct (Z.le_gt_cases c (last_mtime w)) as [Hle | Hlt].
  - left. destruct (watch_iteration_no_change _ _ _ Hscan Hle) as (Hi & Hb & _).
    rewrite Hi in H. injection H as <- <-. exact Hb.
  - destruct (print E ChangeDetected w1) as [[[] | e] w2] eqn:Hp.
    + right. exists c, w1. split; [ exact Hscan | split; [ exact Hlt |] ].
      rewrite (watch_iteration_change _ _ _ _ Hscan Hlt Hp) in H.
      apply debounce_and_rebuild_keep_baseline in H. exact H.
    + left. destruct (scan_inv _ _ _ Hscan) as (_ & _ & Hw1 & _).
      unfold watch_iteration in H.
      rewrite (bind_ret_l _ _ _ _ _ Hs), (bind_ret_l _ _ _ _ _ Hg) in H.
      unfold get_last_mtime at 1 in H. unfold bind at 1 in H.
      replace (last_mtime w1) with (last_mtime w) in H by now subst w1.
      destruct (Z.gtb_spec c (last_mtime w)); [| lia ].
      rewrite (bind_raise_l _ _ _ _ _ Hp) in H. injection H as <- <-.
      destruct (perform_inv _ _ _ _ _ _ Hp) as (ev & _ & ->).
      now subst w1.
Qed.

Lemma rebuild_keeps_baseline : respects baseline_kept (rebuild E).
Proof.
  pose proof baseline_kept_refl. pose proof baseline_kept_trans.
  pose proof build_keeps_baseline. pose proof run_app_keeps_baseline.
  unfold rebuild. frame.
Qed.

Lemma on_interrupt_keeps_baseline : respects baseline_kept (on_interrupt E).
Proof.
  pose proof baseline_kept_refl. pose proof baseline_kept_trans.
  pose proof baseline_kept_record.
  unfold on_interrupt, print, terminate, sys_exit. frame; exact I.
Qed.

Lemma watch_loop_baseline n w r w' :
  watch_loop E n w = (r, w') -> last_mtime w <= last_mtime w'.
Proof.
  revert w. induction n as [| n IH]; intros w; cbn [watch_loop].
  - intros [= <- <-]. lia.
  - intros H.
    destruct (bind_inv _ _ _ _ _ H) as [([] & w1 & Hi & Hl) | (e & Hi & _)].
    + apply IH in Hl.
      destruct (watch_iteration_baseline _ _ _ Hi) as [Hb | (c & ? & _ & ? & Hb)];
        lia.
    + destruct (watch_iteration_baseline _ _ _ Hi) as [Hb | (c & ? & _ & ? & Hb)];
        lia.
Qed.

(** From the baseline that start-up stores to the end of [main]. *)
Lemma main_baseline n w0 w r w' :
  baseline E w0 = (Ret tt, w) -> main E n w0 = (r, w') ->
  last_mtime w <= last_mtime w'.
Proof.
  intros H0 H. unfold main in H.
  destruct (bind_inv _ _ _ _ _ H) as [([] & w1 & Hs & Hw) | (e & Hs & _)];
    rewrite startup_cut, (bind_ret_l _ _ _ _ _ H0) in Hs;
    apply rebuild_keeps_baseline in Hs; unfold baseline_kept in Hs;
    [| lia ].
  unfold watching, try_except in Hw.
  destruct (watch_loop E n w1) as [[[] | e] w2] eqn:Hl;
    apply watch_loop_baseline in Hl.
  - injection Hw as <- <-. lia.
  - destruct (is_KeyboardInterrupt e).
    + apply on_interrupt_keeps_baseline in Hw. unfold baseline_kept in Hw.
      lia.
    + injection Hw as <- <-. lia.
Qed.

End Baseline.

Section BaselineClaims.

Variable E : environment.

(** C5.  A pass that sees a scan [c] above the baseline and gets its message
    out has stored [c] as the baseline in the world in which the debounce
    sleep and the rebuild then run; whatever they do, the pass ends with
    baseline [c]; and a next pass that finds the watched files as that scan
    saw them scans to [c] again, and ends right after its scan, without a
    build. *)
Theorem baseline_updated_before_rebuild (w w1 w2 : world) (c : Z) :
  (sleep E 1000 ;; get_max_mtime E) w = (Ret c, w1) ->
  last_mtime w < c ->
  print E ChangeDetected w1 = (Ret tt, w2) ->
  watch_iteration E w =
    (sleep E 500 ;; rebuild E)
      {| current_process := current_process w2; last_mtime := c;
         log := log w2 |} /\
  forall r w',
    watch_iteration E w = (r, w') ->
    last_mtime w' = c /\
    forall c' w1',
      (sleep E 1000 ;; get_max_mtime E) w' = (Ret c', w1') ->
      same_watched (source_tree E (S (tick w))) (source_tree E (S (tick w'))) ->
      c' = c /\
      watch_iteration E w' = (Ret tt, w1') /\
      log w1' = log w' ++ [ Done (Sleep 1000); Done (OsWalk SOURCE_DIR) ].
Proof.
  intros Hscan Hlt Hp.
  pose proof (watch_iteration_change E _ _ _ _ Hscan Hlt Hp) as Hi.
  split; [ exact Hi |]. intros r w' Hrun.
  assert (Hb : last_mtime w' = c).
  { rewrite Hi in Hrun.
    apply debounce_and_rebuild_keep_baseline in Hrun. exact Hrun. }
  split; [ exact Hb |]. intros c' w1' Hscan' Hsame.
  assert (Hc : c' = c).
  { destruct (scan_inv E _ _ _ Hscan) as (_ & _ & _ & ->).
    destruct (scan_inv E _ _ _ Hscan') as (_ & _ & _ & ->).
    now rewrite !get_max_mtime_of_fold, (same_watched_mtimes _ _ Hsame). }
  split; [ exact Hc |].
  destruct (watch_iteration_no_change E _ _ _ Hscan') as (H1 & _ & H2);
    [ lia | auto ].
Qed.

(** C9.  Over any number of passes of the loop the baseline does not
    decrease, nor does it from the value start-up stores to the end of
    [main].  A pass leaves it as it was or raises it to the value of its
    scan, which then is strictly larger; and a pass whose scan is not above
    the baseline ends right after the scan, baseline unchanged, without a
    build. *)
Theorem baseline_never_decreases (n : nat) (w w' : world) (r : result unit) :
  watch_loop E n w = (r, w') ->
  last_mtime w <= last_mtime w' /\
  (forall r1 w1,
      watch_iteration E w = (r1, w1) ->
      last_mtime w1 = last_mtime w \/
      exists c ws,
        (sleep E 1000 ;; get_max_mtime E) w = (Ret c, ws) /\
        last_mtime w < c /\ last_mtime w1 = c) /\
  (forall c ws,
      (sleep E 1000 ;; get_max_mtime E) w = (Ret c, ws) ->
      c <= last_mtime w ->
      watch_iteration E w = (Ret tt, ws) /\
      last_mtime ws = last_mtime w /\
      log ws = log w ++ [ Done (Sleep 1000); Done (OsWalk SOURCE_DIR) ]) /\
  (forall w0 r0 w'',
      baseline E w0 = (Ret tt, w) -> main E n w0 = (r0, w'') ->
      last_mtime w <= last_mtime w'').
Proof.
  intros H. split; [| split; [| split ]].
  - eapply watch_loop_baseline; eassumption.
  - intros r1 w1. apply watch_iteration_baseline.
  - intros c ws. apply watch_iteration_no_change.
  - intros w0 r0 w''. apply main_baseline.
Qed.

End BaselineClaims.

Lemma baseline_updated_before_rebuild_witness :
  last_mtime Scenario.relaunched = 200 /\
  watch_iteration Scenario.edited Scenario.relaunched
  = (Ret tt, Scenario.rescanned) /\
  log Scenario.rescanned
  = log Scenario.relaunched ++
    [ Done (Sleep 1000); Done (OsWalk SOURCE_DIR) ].
Proof.
  destruct (baseline_updated_before_rebuild Scenario.edited
              Scenario.launched Scenario.edit_seen Scenario.edit_announced 200)
    as (_ & H).
  - vm_compute. reflexivity.
  - reflexivity.
  - vm_compute. reflexivity.
  - destruct (H (Ret tt) Scenario.relaunched) as (Hb & Hnext).
    { vm_compute. reflexivity. }
    split; [ exact Hb |].
    destruct (Hnext 200 Scenario.rescanned) as (_ & Hrun & Hlog).
    { vm_compute. reflexivity. }
    { split; [ reflexivity |]. intros. reflexivity. }
    split; [ exact Hrun | exact Hlog ].
Defined.

Lemma baseline_never_decreases_witness :
  100 <= last_mtime (snd (watch_loop Scenario.deleted 3 Scenario.launched)) /\
  watch_iteration Scenario.deleted Scenario.launched
  = (Ret tt, Scenario.nothing_seen) /\
  last_mtime Scenario.nothing_seen = 100.
Proof.
  (* the scan of the second pass returns 0, below the baseline 100 *)
  destruct (baseline_never_decreases Scenario.deleted 3 Scenario.launched
              (snd (watch_loop Scenario.deleted 3 Scenario.launched))
              (fst (watch_loop Scenario.deleted 3 Scenario.launched)))
    as (Hle & _ & Hlow & _).
  - apply surjective_pairing.
  - split; [ exact Hle |].
    destruct (Hlow 0 Scenario.nothing_seen) as (Hrun & Hb & _).
    + vm_compute. reflexivity.
    + vm_compute. discriminate.
    + split; [ exact Hrun | exact Hb ].
Defined.

(** ** The operator's interrupt *)

Section Interrupt.

Variable E : environment.

(** The interrupt arrives at moment [t] and at no moment from [t0] to [t]. *)
Variables t0 t : nat.
Hypothesis first_at_t : forall u, (t0 <= u < t)%nat -> sigint E u = false.
Hypothesis sigint_at_t : sigint E t = true.

Local Abbreviation landing := (lands t0 t).

Lemma lands_ret {A} ok (a : A) : landing ok (ret a).
Proof. intros w r w' Hw [= <- <-]. lia. Qed.

Lemma lands_bind {A B} ok (m : M A) (k : A -> M B) :
  landing ok m -> (forall a, landing ok (k a)) -> landing ok (bind m k).
Proof.
  intros Hm Hk w r w' Hw H.
  destruct (bind_inv _ _ _ _ _ H) as [(a & w1 & H1 & H2) | (e & H1 & ->)].
  - specialize (Hm _ _ _ Hw H1). cbn in Hm.
    assert (Hw1 : (t0 <= tick w1 <= t)%nat) by lia.
    specialize (Hk a _ _ _ Hw1 H2).
    destruct r as [b | []]; cbn in Hk |- *; try lia;
      (split; [ tauto | lia ]).
  - exact (Hm _ _ _ Hw H1).
Qed.

Lemma lands_perform {A} ok (c : call) (answer : nat -> result A) :
  (forall u e, answer u = Raise e ->
               is_KeyboardInterrupt e = false /\ ok e = true) ->
  landing ok (perform E c answer).
Proof.
  intros Hans w r w' Hw. unfold perform.
  destruct (Nat.eq_dec (tick w) t) as [Heq | Hne].
  - rewrite Heq, sigint_at_t. intros [= <- <-]. now rewrite tick_record, Heq.
  - rewrite first_at_t by lia.
    destruct (answer (tick w)) as [a | e] eqn:Ha; intros [= <- <-];
      rewrite tick_record.
    + lia.
    + destruct (Hans _ _ Ha) as [Hk Hok].
      destruct e; try discriminate; (split; [ exact Hok | lia ]).
Qed.

Lemma lands_total {A} ok (c : call) (f : nat -> A) :
  landing ok (perform E c (fun u => Ret (f u))).
Proof. apply lands_perform. discriminate. Qed.

Lemma lands_try {A} (m h : M A) :
  landing is_TimeoutExpired m -> landing no_other h ->
  landing no_other (try_except m is_TimeoutExpired h).
Proof.
  intros Hm Hh w r w' Hw. unfold try_except.
  destruct (m w) as [[a | e] w1] eqn:H1; specialize (Hm _ _ _ Hw H1).
  - intros [= <- <-]. exact Hm.
  - destruct e; cbn [is_TimeoutExpired] in *;
      try (intros [= <- <-]; first [ exact Hm | now destruct Hm ]).
    intros H2. destruct Hm as [_ Hw1].
    assert (Hw1' : (t0 <= tick w1 <= t)%nat) by lia.
    specialize (Hh _ _ _ Hw1' H2).
    destruct r as [b | []]; cbn in Hh |- *; try lia;
      (split; [ tauto | lia ]).
Qed.

Lemma lands_state {A} (f : world -> A) (g : world -> world) :
  (forall w, tick (g w) = tick w) ->
  landing no_other (fun w => (Ret (f w), g w)).
Proof.
  intros Hg w r w' Hw [= <- <-]. rewrite Hg. lia.
Qed.

Lemma build_lands : landing no_other (build E).
Proof.
  unfold build, print, subprocess_run.
  repeat first
    [ apply lands_ret | apply lands_total
    | apply lands_bind; [| intros ? ]
    | match goal with |- lands _ _ _ (if ?b then _ else _) => destruct b end ].
Qed.

Lemma run_app_lands : landing no_other (run_app E).
Proof.
  unfold run_app, print, subprocess_run, terminate, kill, sleep,
    os_path_exists, subprocess_Popen.
  apply lands_bind; [ now apply (lands_state current_process (fun w => w)) |].
  intros [p |].
  - repeat first
      [ apply lands_ret | apply lands_total
      | apply (lands_state (fun _ => tt)); reflexivity
      | apply lands_bind; [| intros ? ]
      | apply lands_try;
          [ apply lands_perform; intros u e; unfold wait;
            destruct (exits_in_time E u); [ discriminate |];
            intros [= <-]; split; reflexivity |]
      | match goal with |- lands _ _ _ (if ?b then _ else _) => destruct b end ].
  - repeat first
      [ apply lands_ret | apply lands_total
      | apply (lands_state (fun _ => tt)); reflexivity
      | apply lands_bind; [| intros ? ]
      | match goal with |- lands _ _ _ (if ?b then _ else _) => destruct b end ].
Qed.

Lemma watch_iteration_lands : landing no_other (watch_iteration E).
Proof.
  pose proof build_lands. pose proof run_app_lands.
  unfold watch_iteration, print, sleep, get_max_mtime.
  repeat first
    [ assumption | apply lands_ret | apply lands_total
    | apply (lands_state last_mtime (fun w => w)); reflexivity
    | apply (lands_state (fun _ => tt)); reflexivity
    | apply lands_bind; [| intros ? ]
    | match goal with |- lands _ _ _ (if ?b then _ else _) => destruct b end ].
Qed.

(** A pass that returns has slept: the clock has advanced. *)
Lemma watch_iteration_advances w w' :
  (t0 <= tick w <= t)%nat ->
  watch_iteration E w = (Ret tt, w') -> (tick w < tick w' <= t)%nat.
Proof.
  intros Hw H. pose proof (watch_iteration_lands _ _ _ Hw H) as Hl.
  cbn in Hl. split; [| lia ].
  unfold watch_iteration in H.
  destruct (bind_inv _ _ _ _ _ H) as [([] & w1 & Hs & Hrest) | (e & _ & [=])].
  destruct (perform_ret_inv _ _ _ _ _ _ Hs) as [-> _].
  assert (Hw1 : (t0 <= tick (record (Done (Sleep 1000)) w) <= t)%nat).
  { rewrite tick_record.
    destruct (Nat.eq_dec (tick w) t) as [Heq | Hne]; [| lia ].
    unfold sleep, perform in Hs. rewrite Heq, sigint_at_t in Hs.
    discriminate. }
  assert (Hrest' : landing no_other
            (current_mtime <- get_max_mtime E ;;
             last <- get_last_mtime ;;
             if current_mtime >? last then
               print E ChangeDetected ;;
               set_last_mtime current_mtime ;;
               sleep E 500 ;;
               ok <- build E ;;
               if ok then run_app E else ret tt
             else ret tt)).
  { pose proof build_lands. pose proof run_app_lands.
    unfold print, sleep, get_max_mtime.
    repeat first
      [ assumption | apply lands_ret | apply lands_total
      | apply (lands_state last_mtime (fun w => w)); reflexivity
      | apply (lands_state (fun _ => tt)); reflexivity
      | apply lands_bind; [| intros ? ]
      | match goal with |- lands _ _ _ (if ?b then _ else _) => destruct b end ]. }
  specialize (Hrest' _ _ _ Hw1 Hrest). cbv beta iota in Hrest'.
  rewrite tick_record in Hrest'. lia.
Qed.

(** With enough passes to reach moment [t], the loop is where the interrupt
    hits. *)
Lemma watch_loop_interrupted n w :
  (t0 <= tick w <= t)%nat -> (t - tick w < n)%nat ->
  exists w', watch_loop E n w = (Raise KeyboardInterrupt, w') /\
             tick w' = S t.
Proof.
  revert w. induction n as [| n IH]; intros w Hw Hn; [ lia |].
  cbn [watch_loop].
  destruct (watch_iteration E w) as [[[] | e] w1] eqn:Hi.
  - pose proof (watch_iteration_advances _ _ Hw Hi) as Hadv.
    rewrite (bind_ret_l _ _ _ _ _ Hi). apply IH; lia.
  - pose proof (watch_iteration_lands _ _ _ Hw Hi) as Hl. cbn in Hl.
    rewrite (bind_raise_l _ _ _ _ _ Hi).
    destruct e; try (now destruct Hl). now exists w1.
Qed.

End Interrupt.

Section InterruptClaim.

Variable E : environment.

Lemma on_interrupt_calm w :
  calm E (tick w) 2 ->
  on_interrupt E w =
  (Raise (SystemExit 0),
   {| current_process := current_process w;
      last_mtime := last_mtime w;
      log := log w ++ Done (Print Exiting) ::
             match current_process w with
             | Some p => [ Done (Terminate p) ]
             | None => []
             end |}).
Proof.
  intros Hcalm. unfold_script. calmly Hcalm. cbn [record current_process].
  destruct (current_process w) as [p |] eqn:Hcp; calmly Hcalm; tidy;
    rewrite ?Hcp; reflexivity.
Qed.

(** C8, as the code has it.  Once start-up is over, the first interrupt that
    arrives, at whichever call of the watch loop, ends [main] (given passes
    enough to get there) through the handler: a message, a terminate request
    to the tracked process if there is one, and [SystemExit(0)]. *)
Theorem interrupt_in_watch_loop (w0 w : world) (t n : nat) :
  startup E w0 = (Ret tt, w) ->
  (tick w <= t)%nat ->
  (forall u, (tick w <= u < t)%nat -> sigint E u = false) ->
  sigint E t = true ->
  calm E (S t) 2 ->
  (t - tick w < n)%nat ->
  exists w',
    watch_loop E n w = (Raise KeyboardInterrupt, w') /\
    tick w' = S t /\
    main E n w0 =
    (Raise (SystemExit 0),
     {| current_process := current_process w';
        last_mtime := last_mtime w';
        log := log w' ++ Done (Print Exiting) ::
               match current_process w' with
               | Some p => [ Done (Terminate p) ]
               | None => []
               end |}).
Proof.
  intros Hstart Ht Hfirst Hsig Hcalm Hn.
  destruct (watch_loop_interrupted E (tick w) t Hfirst Hsig n w)
    as (w' & Hloop & Htick); [ lia | exact Hn |].
  exists w'. split; [ exact Hloop | split; [ exact Htick |] ].
  unfold main. rewrite (bind_ret_l _ _ _ _ _ Hstart).
  unfold watching, try_except. rewrite Hloop. cbn [is_KeyboardInterrupt].
  apply on_interrupt_calm. now rewrite Htick.
Qed.

End InterruptClaim.

Lemma interrupt_in_watch_loop_witness :
  exists w',
    watch_loop (Scenario.interrupted 13) 3 Scenario.launched
    = (Raise KeyboardInterrupt, w') /\
    tick w' = 14%nat /\
    main (Scenario.interrupted 13) 3 boot =
    (Raise (SystemExit 0),
     {| current_process := current_process w';
        last_mtime := last_mtime w';
        log := log w' ++ Done (Print Exiting) ::
               match current_process w' with
               | Some p => [ Done (Terminate p) ]
               | None => []
               end |}).
Proof.
  apply (interrupt_in_watch_loop (Scenario.interrupted 13)
           boot Scenario.launched 13 3).
  - vm_compute. reflexivity.
  - vm_compute. lia.
  - intros u Hu. change (tick Scenario.launched) with 11%nat in Hu.
    cbn [sigint Scenario.interrupted]. apply Nat.eqb_neq. lia.
  - reflexivity.
  - intros u Hu. cbn [sigint Scenario.interrupted]. apply Nat.eqb_neq. lia.
  - vm_compute. lia.
Defined.

(** C8, as stated, fails: an interrupt that arrives during the initial build
    is outside the [try] of [main].  [KeyboardInterrupt] leaves [main]
    uncaught, whatever the number of passes allowed; the handler does not run
    and the interpreter does not exit through [sys.exit(0)]. *)
Lemma interrupt_during_startup_escapes :
  main (Scenario.interrupted 3) 5 boot =
  (Raise KeyboardInterrupt,
   {| current_process := None;
      last_mtime := 100;
      log := [ Done (Print Watching); Done (OsWalk SOURCE_DIR);
               Done (Print Building);
               Raised (SubprocessRun xcodebuild) KeyboardInterrupt ] |}) /\
  (forall n,
      fst (main (Scenario.interrupted 3) n boot) <> Raise (SystemExit 0)).
Proof.
  split.
  - vm_compute. reflexivity.
  - intros n. unfold main.
    erewrite bind_raise_l by (vm_compute; reflexivity).
    discriminate.
Qed.

(** * More of the script *)

(** ** build and a pass that rebuilds *)

Section Rebuilding.

Variable E : environment.

Lemma build_calm_log w :
  calm E (tick w) 5 ->
  build E w =
  (Ret (returncode (completed E (1 + tick w)) =? 0),
   {| current_process := current_process w;
      last_mtime := last_mtime w;
      log := log w ++ build_log E (tick w) |}).
Proof.
  intros Hcalm. unfold build_log. unfold_script. calmly Hcalm.
  rewrite !tick_record. cbn [Nat.add]. cbv zeta.
  destruct (returncode _ =? 0); cbn [negb]; calmly Hcalm.
  - tidy. reflexivity.
  - destruct (truthy (stderr _)), (truthy (stdout _)); calmly Hcalm; tidy;
      reflexivity.
Qed.

Lemma build_log_length t : (List.length (build_log E t) <= 5)%nat.
Proof.
  unfold build_log. cbv zeta.
  destruct (returncode _ =? 0); [ cbn; lia |].
  destruct (truthy (stderr _)), (truthy (stdout _)); cbn; lia.
Qed.

(** X1.  A build that is not interrupted returns [True] exactly when
    xcodebuild exits with status 0.  On success it prints one line and none of
    the captured output; on failure it prints the failure line, then the
    captured standard error, then the captured standard output, each only
    when it is not empty. *)
Theorem build_reports_exit_status (w : world) :
  calm E (tick w) 5 ->
  build E w =
  (Ret (returncode (completed E (1 + tick w)) =? 0),
   {| current_process := current_process w;
      last_mtime := last_mtime w;
      log := log w ++ build_log E (tick w) |}) /\
  (fst (build E w) = Ret true <-> returncode (completed E (1 + tick w)) = 0) /\
  (fst (build E w) = Ret false <-> returncode (completed E (1 + tick w)) <> 0).
Proof.
  intros Hcalm. rewrite (build_calm_log w Hcalm). cbn [fst].
  split; [ reflexivity |].
  destruct (Z.eqb_spec (returncode (completed E (1 + tick w))) 0) as [H0 | H0];
    split; split; intros H; congruence.
Qed.


(** X3.  As long as no scan exceeds the baseline and nothing interrupts, the
    loop only sleeps and scans: after [n] passes the two variables are what
    they were and the log has grown by [n] polls.  The tool never builds or
    touches the application of its own accord. *)
Theorem idle_loop_only_polls (n : nat) (w : world) :
  calm E (tick w) (2 * n) ->
  (forall t, (tick w <= t < tick w + 2 * n)%nat ->
             get_max_mtime_of (source_tree E t) <= last_mtime w) ->
  watch_loop E n w =
  (Ret tt,
   {| current_process := current_process w;
      last_mtime := last_mtime w;
      log := log w ++ List.concat (repeat idle_log n) |}).
Proof.
  revert w. induction n as [| n IH]; intros w Hcalm Hidle.
  - cbn [watch_loop repeat List.concat]. unfold ret. rewrite app_nil_r.
    now destruct w.
  - assert (H4 : calm E (tick w) 2)
      by (eapply calm_within; [ exact Hcalm | lia | lia ]).
    assert (Hscan : (sleep E 1000 ;; get_max_mtime E) w =
                    (Ret (get_max_mtime_of (source_tree E (S (tick w)))),
                     record (Done (OsWalk SOURCE_DIR))
                       (record (Done (Sleep 1000)) w))).
    { unfold_script. calmly H4. now rewrite tick_record. }
    destruct (watch_iteration_no_change E _ _ _ Hscan) as (Hi & _ & _).
    { apply Hidle. lia. }
    cbn [watch_loop]. rewrite (bind_ret_l _ _ _ _ _ Hi).
    rewrite IH.
    + unfold record, idle_log.
      cbn [current_process last_mtime log repeat List.concat].
      rewrite <- !app_assoc. reflexivity.
    + rewrite !tick_record. eapply calm_within; [ exact Hcalm | lia | lia ].
    + rewrite !tick_record. cbn [record last_mtime]. intros t Ht.
      apply Hidle. lia.
Qed.

(** X4.  When start-up returns, the baseline is the scan it made before its
    build, whatever the build and the launch did since: a file saved while
    the initial build runs is above the baseline at the first poll. *)
Theorem startup_baseline_is_first_scan (w w' : world) :
  startup E w = (Ret tt, w') ->
  last_mtime w' = get_max_mtime_of (source_tree E (S (tick w))).
Proof.
  intros H. rewrite startup_cut in H.
  destruct (bind_inv _ _ _ _ _ H) as [([] & w1 & Hb & Hr) | (e & _ & [=])].
  apply rebuild_keeps_baseline in Hr. unfold baseline_kept in Hr.
  rewrite Hr. clear Hr H.
  unfold baseline in Hb.
  destruct (bind_inv _ _ _ _ _ Hb) as [([] & w2 & Hp & Hs) | (e & _ & [=])].
  destruct (perform_ret_inv _ _ _ _ _ _ Hp) as [-> _].
  destruct (bind_inv _ _ _ _ _ Hs) as [(m & w3 & Hg & Hset) | (e & _ & [=])].
  destruct (perform_ret_inv _ _ _ _ _ _ Hg) as [-> Hm].
  rewrite tick_record in Hm. injection Hm as <-.
  injection Hset as <-. reflexivity.
Qed.

End Rebuilding.

Lemma build_reports_exit_status_witness :
  build Scenario.broken Scenario.first_build
  = (Ret false, Scenario.first_failure).
Proof.
  destruct (build_reports_exit_status Scenario.broken Scenario.first_build)
    as (H & _ & _).
  - intros t _. reflexivity.
  - rewrite H. vm_compute. reflexivity.
Defined.


Lemma idle_loop_only_polls_witness :
  watch_loop Scenario.steady 3 Scenario.launched =
  (Ret tt,
   {| current_process := Some 10%nat;
      last_mtime := 100;
      log := log Scenario.launched ++
             [ Done (Sleep 1000); Done (OsWalk SOURCE_DIR);
               Done (Sleep 1000); Done (OsWalk SOURCE_DIR);
               Done (Sleep 1000); Done (OsWalk SOURCE_DIR) ] |}).
Proof.
  apply (idle_loop_only_polls Scenario.steady 3 Scenario.launched).
  - intros t _. reflexivity.
  - intros t _. vm_compute. discriminate.
Defined.

Lemma startup_baseline_is_first_scan_witness :
  last_mtime Scenario.first_failure = 100 /\
  get_max_mtime_of
    (source_tree Scenario.broken (tick Scenario.first_failure)) = 200.
Proof.
  split.
  - rewrite (startup_baseline_is_first_scan Scenario.broken boot
               Scenario.first_failure).
    + vm_compute. reflexivity.
    + vm_compute. reflexivity.
  - vm_compute. reflexivity.
Defined.

(** ** The handle *)

Section Handle.

Variable E : environment.















End Handle.


(** ** run_app and build, interrupted or not *)

(** Follow a run down every way it can go: an interrupt or none at each call,
    the child exiting in time or not, the binary there or not. *)
Ltac crack H :=
  repeat (cbv beta iota zeta in H; cbn [is_TimeoutExpired negb] in H;
          match type of H with
          | context [match current_process ?w with _ => _ end] =>
              destruct (current_process w) eqn:?
          | context [if ?b then _ else _] => destruct b
          end).

Ltac unfold_script_in H :=
  unfold run_app, build, print, subprocess_run, terminate, wait, kill, sleep,
    os_path_exists, subprocess_Popen, get_current_process,
    set_current_process, try_except, bind, ret, raise, perform in H.

Ltac new_log :=
  unfold record; cbn [log]; rewrite <- ?app_assoc; cbn [app]; reflexivity.

Section AnyRun.

Variable E : environment.

(** X6.  However [run_app] ends, interrupted or not: it launches only after
    a sweep by name and the settle sleep have returned; it kills a process
    only after a wait on that process has timed out; a timeout never leaves
    it as an exception; and [current_process] is either what it was or the
    handle of the launch that ended the run. *)
Theorem run_app_is_guarded (w w' : world) (r : result unit) :
  run_app E w = (r, w') ->
  exists l,
    log w' = log w ++ l /\
    guarded false false None l = true /\
    r <> Raise TimeoutExpired /\
    (current_process w' = current_process w \/
     r = Ret tt /\
     last l (Done (Print Rule)) = Done (Popen [APP_PATH]) /\
     current_process w' = Some (pred (List.length l) + tick w)%nat).
Proof.
  intros H. unfold_script_in H.
  crack H; injection H as <- <-;
    (eexists; split; [ new_log |];
     split; [ cbn; rewrite ?Nat.eqb_refl; reflexivity |];
     split; [ discriminate |];
     first
       [ left; cbn [record current_process]; congruence
       | right; split; [ reflexivity |]; split; [ reflexivity |];
         cbn [current_process]; f_equal; unfold tick, record; cbn [log];
         rewrite ?length_app; cbn [List.length]; lia ]).
Qed.

(** X7.  However [build] ends, interrupted or not, it leaves
    [current_process] and the baseline alone, does nothing but print and run
    xcodebuild, and runs it at most once: a failed build is not retried. *)
Theorem build_runs_xcodebuild_once (w w' : world) (r : result bool) :
  build E w = (r, w') ->
  current_process w' = current_process w /\
  last_mtime w' = last_mtime w /\
  exists l,
    log w' = log w ++ l /\
    forallb (fun e => build_call (call_of e)) l = true /\
    (count_subprocess_runs l <= 1)%nat.
Proof.
  intros H. unfold_script_in H.
  crack H; injection H as <- <-;
    (split; [ reflexivity |]; split; [ reflexivity |];
     eexists; split; [ new_log |]; split; [ reflexivity | cbn; lia ]).
Qed.

End AnyRun.

Lemma run_app_is_guarded_witness :
  exists l,
    log (snd (run_app (Scenario.interrupted 16) Scenario.launched))
    = log Scenario.launched ++ l /\
    guarded false false None l = true /\
    current_process (snd (run_app (Scenario.interrupted 16) Scenario.launched))
    = Some 10%nat.
Proof.
  destruct (run_app_is_guarded (Scenario.interrupted 16) Scenario.launched
              (snd (run_app (Scenario.interrupted 16) Scenario.launched))
              (fst (run_app (Scenario.interrupted 16) Scenario.launched)))
    as (l & Hl & Hg & _).
  - apply surjective_pairing.
  - exists l. split; [ exact Hl | split; [ exact Hg |] ].
    vm_compute. reflexivity.
Defined.

Lemma build_runs_xcodebuild_once_witness :
  current_process (snd (build (Scenario.interrupted 12) Scenario.launched))
  = Some 10%nat /\
  fst (build (Scenario.interrupted 12) Scenario.launched)
  = Raise KeyboardInterrupt.
Proof.
  destruct (build_runs_xcodebuild_once (Scenario.interrupted 12)
              Scenario.launched
              (snd (build (Scenario.interrupted 12) Scenario.launched))
              (fst (build (Scenario.interrupted 12) Scenario.launched)))
    as (Hcp & _).
  - apply surjective_pairing.
  - split; [ exact Hcp |]. vm_compute. reflexivity.
Defined.

(** ** The scan and the order of the listing *)

Section ListingOrder.

Lemma fold_max_permutation l l' :
  Permutation l l' -> forall a, fold_left Z.max l a = fold_left Z.max l' a.
Proof.
  induction 1 as [| x l l' _ IH | x y l | l l' l'' _ IH1 _ IH2]; intros a;
    cbn.
  - reflexivity.
  - apply IH.
  - f_equal. lia.
  - now rewrite IH1.
Qed.

Lemma readable_mtimes_permutation s root files files' :
  Permutation files files' ->
  Permutation (flat_map (readable_mtime s root) files)
              (flat_map (readable_mtime s root) files').
Proof.
  intros H. now rewrite H.
Qed.

Lemma watched_mtimes_same_dirs s s' walk walk' :
  (forall path, os_path_getmtime s' path = os_path_getmtime s path) ->
  Forall2 same_dir walk walk' ->
  Permutation
    (flat_map (fun '(root, _, files) => flat_map (readable_mtime s root) files)
              walk)
    (flat_map (fun '(root, _, files) => flat_map (readable_mtime s' root) files)
              walk').
Proof.
  intros Hstat H.
  induction H as [| [[root dirs] files] [[root' dirs'] files'] walk walk'
                    [Hroot Hfiles] _ IH]; cbn.
  - constructor.
  - cbn in Hroot, Hfiles. subst root'. apply Permutation_app; [| exact IH ].
    rewrite (readable_mtimes_permutation s root files files' Hfiles).
    assert (Heq : forall f, readable_mtime s root f = readable_mtime s' root f)
      by (intros f; unfold readable_mtime; now rewrite Hstat).
    clear -Heq. induction files' as [| f files' IHf]; cbn.
    + constructor.
    + rewrite Heq. now apply Permutation_app.
Qed.

(** X8.  The scan does not depend on the order in which [os.walk] yields the
    directories, nor on the order of the files within a directory (nor on the
    subdirectory lists it yields): two snapshots with the same timestamps
    whose listings differ only in those scan to the same value. *)
Theorem scan_ignores_listing_order (s s' : snapshot)
  (mid : list (string * list string * list string)) :
  (forall path, os_path_getmtime s' path = os_path_getmtime s path) ->
  Forall2 same_dir (os_walk s SOURCE_DIR) mid ->
  Permutation mid (os_walk s' SOURCE_DIR) ->
  get_max_mtime_of s' = get_max_mtime_of s.
Proof.
  intros Hstat Hdirs Hperm. rewrite !get_max_mtime_of_fold.
  apply fold_max_permutation. symmetry. unfold watched_mtimes.
  rewrite <- Hperm. now apply watched_mtimes_same_dirs.
Qed.

End ListingOrder.

Lemma scan_ignores_listing_order_witness :
  get_max_mtime_of Scenario.three_files_backwards
  = get_max_mtime_of Scenario.three_files /\
  get_max_mtime_of Scenario.three_files = 300.
Proof.
  split; [| vm_compute; reflexivity ].
  apply (scan_ignores_listing_order
           Scenario.three_files Scenario.three_files_backwards
           [ (SOURCE_DIR, ["Views"%string],
              ["Info.plist"; "Inbox.swift"]%string);
             (os_path_join SOURCE_DIR "Views", [], ["Thread.swift"%string]) ]).
  - reflexivity.
  - repeat constructor.
  - apply perm_swap.
Defined.

(** ** Which files are watched *)

Section Watched.

Lemma substring_skip pre s k :
  substring (String.length pre) k (pre ++ s)%string = substring 0 k s.
Proof.
  induction pre as [| c pre IH]; cbn; [ reflexivity | exact IH ].
Qed.

Lemma substring_whole s : substring 0 (String.length s) s = s.
Proof.
  induction s as [| c s IH]; cbn; [ reflexivity | now rewrite IH ].
Qed.

Lemma string_length_append a b :
  String.length (a ++ b)%string = (String.length a + String.length b)%nat.
Proof.
  induction a as [| c a IH]; cbn; [ reflexivity | now rewrite IH ].
Qed.

Lemma substring_split s m :
  (m <= String.length s)%nat ->
  s = (substring 0 m s ++ substring m (String.length s - m) s)%string.
Proof.
  revert m. induction s as [| c s IH]; intros m Hm; cbn in *.
  - destruct m; [ reflexivity | lia ].
  - destruct m as [| m]; cbn.
    + now rewrite substring_whole.
    + f_equal. apply IH. lia.
Qed.

(** [endswith] is the suffix test. *)
Lemma endswith_iff s suffix :
  endswith s suffix = true <-> exists stem, s = (stem ++ suffix)%string.
Proof.
  unfold endswith. split.
  - remember (String.length suffix) as k eqn:Hk.
    intros H. apply andb_true_iff in H as [Hlen Heq].
    apply Nat.leb_le in Hlen. apply String.eqb_eq in Heq.
    exists (substring 0 (String.length s - k) s).
    pose proof (substring_split s (String.length s - k)) as Hs.
    replace (String.length s - (String.length s - k))%nat with k in Hs by lia.
    rewrite Heq in Hs. apply Hs. lia.
  - intros [stem ->]. rewrite string_length_append.
    apply andb_true_iff. split; [ apply Nat.leb_le; lia |].
    replace (String.length stem + String.length suffix - String.length suffix)%nat
      with (String.length stem) by lia.
    rewrite substring_skip, substring_whole. apply String.eqb_refl.
Qed.

(** X9.  The scan looks at a file exactly when its name is some stem, possibly
    empty, followed by [.swift], [.entitlements] or [.plist], in this very
    spelling: the test is on the end of the name and is case-sensitive. *)
Theorem watched_iff_extension (f : string) :
  watched f = true <->
  exists stem,
    f = (stem ++ ".swift")%string \/
    f = (stem ++ ".entitlements")%string \/
    f = (stem ++ ".plist")%string.
Proof.
  unfold watched. rewrite !orb_true_iff, !endswith_iff. split.
  - intros [[[stem H] | [stem H]] | [stem H]]; exists stem; auto.
  - intros [stem [H | [H | H]]]; [ left; left | left; right | right ];
      now exists stem.
Qed.

End Watched.
